(** * Borrowing & Fine Engine: a shallow embedding of [js/borrowing-system.js]

    The class [BorrowingSystem] keeps two arrays, [borrowers] and
    [transactions], mirrors them into [localStorage] after every successful
    write, and reads the wall clock through [Date.now()] / [new Date()].

    Modelling conventions.
    - Strings are Rocq [string]s read as sequences of ASCII code units;
      [trim], [toLowerCase] and the escaping of [Validator.sanitize] are
      the built-ins on code units below 128 only (no-break space and the
      letters beyond that range are outside the model), and what is
      proved of [registerBorrower] is stated for text in that range
      ([ascii_registration]).
    - A [Date] is its time value, an integer number of milliseconds since
      the epoch ([Z]); an invalid date (NaN) is [None].  ISO strings stored
      in records are kept as the instant they denote, since
      [new Date(d.toISOString())] has the time value of [d].
    - A number is an IEEE-754 double, held as the rational ([Q]) it
      denotes: [0.50] is [1 # 2], and [0.1] is the double nearest to one
      tenth, [3602879701896397 # 2 ^ 55].  The product in [calculateFine]
      is rounded as the code rounds it ([Binary64]); differences of
      instants and their quotient by the length of a day are exact.
    - The engine object is a [World]; every method is a computation in a
      state-and-exception monad over it.  The clock is an oracle: the
      [n]-th reading made by the program returns [clock env n]. *)

From Stdlib Require Import Ascii ZArith QArith Qround Lia Lqa Sorted SpecFloat.
From stdpp Require Import base decidable option list strings pretty.

Local Open Scope Z_scope.

(** ** JavaScript string built-ins (ASCII range) *)

Module JS.

(** [WhiteSpace] and [LineTerminator] code points below 128:
    TAB, LF, VT, FF, CR and SPACE. *)
Definition isWhiteSpace (c : ascii) : bool :=
  let n := nat_of_ascii c in
  ((9 <=? n)%nat && (n <=? 13)%nat) || (n =? 32)%nat.

Fixpoint trimStart (s : string) : string :=
  match s with
  | EmptyString => EmptyString
  | String c s' => if isWhiteSpace c then trimStart s' else s
  end.

(** [String.prototype.trim] *)
Definition trim (s : string) : string :=
  String.rev (trimStart (String.rev (trimStart s))).

Definition lowerChar (c : ascii) : ascii :=
  let n := nat_of_ascii c in
  if ((65 <=? n)%nat && (n <=? 90)%nat)%bool
  then ascii_of_nat (n + 32) else c.

(** [String.prototype.toLowerCase] *)
Fixpoint toLowerCase (s : string) : string :=
  match s with
  | EmptyString => EmptyString
  | String c s' => String (lowerChar c) (toLowerCase s')
  end.

(** Truthiness of an optional string property: [undefined] and [''] are
    falsy, every other string is truthy. *)
Definition truthy (v : option string) : bool :=
  match v with
  | Some (String _ _) => true
  | _ => false
  end.

(** The string a truthy property holds, [''] for a falsy one. *)
Definition text (v : option string) : string := default EmptyString v.

(** [Number.prototype.toString] on an integer: its decimal numeral. *)
Definition toString (n : Z) : string := pretty n.

End JS.

(** ** [Validator.sanitize] *)

Module Validator.

(** Serialising a text node ([div.textContent = input; div.innerHTML])
    escapes [&], [<] and [>]. *)
Fixpoint escapeText (s : string) : string :=
  match s with
  | EmptyString => EmptyString
  | String c s' =>
      let rest := escapeText s' in
      if Ascii.eqb c "&" then "&amp;" +:+ rest
      else if Ascii.eqb c "<" then "&lt;" +:+ rest
      else if Ascii.eqb c ">" then "&gt;" +:+ rest
      else String c rest
  end.

Definition sanitize (input : string) : string :=
  JS.trim (escapeText input).

End Validator.

(** ** Dates *)

Module JSDate.

(** [1000 * 60 * 60 * 24] *)
Definition msPerDay : Z := 1000 * 60 * 60 * 24.

(** Largest magnitude of a valid time value. *)
Definition maxTime : Z := 8640000000000000.

(** [TimeClip]: out-of-range time values become NaN. *)
Definition TimeClip (t : Z) : option Z :=
  if decide (Z.abs t <= maxTime) then Some t else None.

(** The host's time zone: [LocalTZA t isUTC] is the local offset in
    milliseconds, looked up at a UTC instant ([isUTC = true]) or at a
    local time ([isUTC = false]). *)
Definition TimeZone : Type := Z -> bool -> Z.

Definition LocalTime (LocalTZA : TimeZone) (t : Z) : Z := t + LocalTZA t true.
Definition UTC (LocalTZA : TimeZone) (t : Z) : Z := t - LocalTZA t false.

(** [d.setDate(d.getDate() + n)] on a valid date with time value [t].
    [setDate] rebuilds the time value from the local calendar fields,
    [MakeDate(MakeDay(year, month, date + n), TimeWithinDay)]; as
    [MakeDay] counts days from the first of the month this is the local
    time moved by [n] whole days, which is then mapped back to UTC and
    clipped. *)
Definition setDate_add (LocalTZA : TimeZone) (t n : Z) : option Z :=
  TimeClip (UTC LocalTZA (LocalTime LocalTZA t + n * msPerDay)).

(** [Math.ceil(ms / (1000 * 60 * 60 * 24))] *)
Definition ceilDays (ms : Z) : Z :=
  Qceiling (inject_Z ms / inject_Z msPerDay).

End JSDate.

(** ** Numbers: IEEE-754 binary64 *)

Module Binary64.

Definition prec : Z := 53.
Definition emax : Z := 1024.

(** A positive is its odd part times two to the number of its trailing
    zero bits. *)
Fixpoint odd_part (p : positive) : positive :=
  match p with
  | xO p' => odd_part p'
  | _ => p
  end.

Fixpoint twos (p : positive) : Z :=
  match p with
  | xO p' => Z.succ (twos p')
  | _ => 0
  end.

(** [q] as [m * 2 ^ t] with [m] odd (or [0 * 2 ^ 0]), when its
    denominator divides out to a power of two. *)
Definition decompose (q : Q) : option (Z * Z) :=
  let t := twos (Qden q) in
  let v := Z.pos (odd_part (Qden q)) in
  match Qnum q with
  | Z0 => Some (0, 0)
  | Zpos n =>
      if decide (Z.pos (odd_part n) mod v = 0)
      then Some (Z.pos (odd_part n) / v, twos n - t) else None
  | Zneg n =>
      if decide (Z.pos (odd_part n) mod v = 0)
      then Some (- (Z.pos (odd_part n) / v), twos n - t) else None
  end.

(** The rationals that are finite doubles: a significand below [2 ^ 53],
    an exponent of at least [-1074], a magnitude below [2 ^ 1024]. *)
Definition representable (q : Q) : bool :=
  match decompose q with
  | Some (m, t) =>
      (Z.abs m <? 2 ^ prec) && (-1074 <=? t) && (Z.log2 (Z.abs m) + t <? emax)
  | None => false
  end.

(** The rational a finite double denotes. *)
Definition of_float (f : spec_float) : option Q :=
  match f with
  | S754_zero _ => Some 0%Q
  | S754_finite s m e =>
      let v := match e with
               | Zneg k => (Z.pos m # Pos.shiftl 1 (Npos k))%Q
               | _ => inject_Z (Z.pos m * 2 ^ e)
               end in
      Some (if s then (- v)%Q else v)
  | _ => None
  end.

(** The double nearest to [q], ties to even ([None]: an infinity).  The
    quotient is cut after at least 56 bits, a last bit records whether
    anything was cut off, and the Standard Library's [binary_normalize]
    rounds the result. *)
Definition nearest (q : Q) : option Q :=
  let n := Z.abs (Qnum q) in
  let d := Z.pos (Qden q) in
  let s := Z.max 0 (Z.log2 d - Z.log2 n + 56) in
  let m := n * 2 ^ s / d in
  let sticky := if decide (n * 2 ^ s mod d = 0) then 0 else 1 in
  let m' := 2 * m + sticky in
  of_float (binary_normalize prec emax
              (if decide (Qnum q < 0) then - m' else m') (- s - 1) false).

(** The double a rational stands for: itself when it is one, else the
    nearest one.  Fines are finite in this model: where the code would
    hold an infinity the rational is left as it is. *)
Definition to_number (q : Q) : Q :=
  if representable q then q else default q (nearest q).

(** [k * x] in double arithmetic, for an integer [k] that is a double
    (every integer of magnitude up to [2 ^ 53] is): the exact product,
    rounded.  An integer that is no double cannot be a day count of the
    code; its product is left exact. *)
Definition mul_int (k : Z) (x : Q) : Q :=
  let p := (inject_Z k * to_number x)%Q in
  if representable (inject_Z k) then to_number p else p.

End Binary64.

Arguments Binary64.mul_int : simpl never.
Arguments Binary64.to_number : simpl never.
Arguments Binary64.representable : simpl never.

(** ** Records *)

Module Borrower.
Record t : Type := mk {
  id : string;
  name : string;
  email : string;
  phone : string;
  address : string;
  createdAt : Z
}.
End Borrower.

(** The argument object of [registerBorrower]; an absent property is [None]. *)
Module BorrowerData.
Record t : Type := mk {
  name : option string;
  email : option string;
  phone : option string;
  address : option string
}.
End BorrowerData.

Inductive Status : Type := Active | Returned.

Global Instance Status_eq_dec : EqDecision Status.
Proof. solve_decision. Defined.

Module Transaction.
Record t : Type := mk {
  id : string;
  bookId : string;
  borrowerId : string;
  checkoutDate : Z;
  dueDate : Z;
  returnDate : option Z;
  status : Status;
  fineAmount : Q;
  createdAt : Z
}.
End Transaction.

(** ** Results *)

Inductive ErrorKind : Type :=
| MissingName
| DuplicateEmail
| BorrowerNotFound
| ItemAlreadyCheckedOut
| TransactionNotFound
| TransactionNotActive.

(** The [error] strings of the source. *)
Definition error_message (e : ErrorKind) : string :=
  match e with
  | MissingName => "Borrower name is required"
  | DuplicateEmail => "Borrower with this email already exists"
  | BorrowerNotFound => "Borrower not found"
  | ItemAlreadyCheckedOut => "This book is already checked out"
  | TransactionNotFound => "Transaction not found"
  | TransactionNotActive => "This book is not currently checked out"
  end.

(** [{success: true, ...: a}] or [{success: false, error: ...}] *)
Inductive Result (A : Type) : Type :=
| Success (a : A)
| Failure (e : ErrorKind).
Arguments Success {A} a.
Arguments Failure {A} e.

(** ** The engine object and its environment *)

(** What the host supplies: the wall clock, as the sequence of values its
    successive readings return, and the local time zone. *)
Record Env : Type := {
  clock : nat -> Z;
  LocalTZA : JSDate.TimeZone
}.

(** [this.borrowers], [this.transactions], the two [localStorage] items
    the class writes ([None]: the key is absent), and the number of clock
    readings made so far. *)
Record World : Type := {
  borrowers : list Borrower.t;
  transactions : list Transaction.t;
  stored_borrowers : option (list Borrower.t);
  stored_transactions : option (list Transaction.t);
  clock_reads : nat
}.

(** [this.defaultLoanDays = 14], assigned once by the constructor. *)
Definition defaultLoanDays : Z := 14.

(** [JSON.parse(localStorage.getItem(key)) || []] for both arrays. *)
Definition constructor (ls_borrowers : option (list Borrower.t))
    (ls_transactions : option (list Transaction.t)) : World :=
  {| borrowers := default [] ls_borrowers;
     transactions := default [] ls_transactions;
     stored_borrowers := ls_borrowers;
     stored_transactions := ls_transactions;
     clock_reads := 0 |}.

(** ** The monad of methods: state plus exceptions *)

Inductive Exception : Type := RangeError.

Inductive Completion (A : Type) : Type :=
| Normal (a : A)
| Throw (e : Exception).
Arguments Normal {A} a.
Arguments Throw {A} e.

Definition M (A : Type) : Type := World -> Completion A * World.

Definition ret {A} (a : A) : M A := fun w => (Normal a, w).

Definition bind {A B} (m : M A) (k : A -> M B) : M B :=
  fun w =>
    match m w with
    | (Normal a, w') => k a w'
    | (Throw e, w') => (Throw e, w')
    end.

Definition throw {A} (e : Exception) : M A := fun w => (Throw e, w).

Definition get : M World := fun w => (Normal w, w).

Notation "'do' x <- m ; k" := (bind m (fun x => k))
  (at level 10, x name, m at level 100, k at level 200).
Notation "m ;; k" := (bind m (fun _ => k))
  (at level 100, k at level 200, right associativity).

Section Engine.

Context (env : Env).

(** [Date.now()], and the time value of [new Date()]. *)
Definition Date_now : M Z :=
  fun w =>
    (Normal (clock env (clock_reads w)),
     {| borrowers := borrowers w;
        transactions := transactions w;
        stored_borrowers := stored_borrowers w;
        stored_transactions := stored_transactions w;
        clock_reads := S (clock_reads w) |}).

(** [d.toISOString()]: a [RangeError] on an invalid date. *)
Definition toISOString (d : option Z) : M Z :=
  match d with
  | Some t => ret t
  | None => throw RangeError
  end.

(** [this.borrowers.push(borrower)] *)
Definition push_borrower (b : Borrower.t) : M unit :=
  fun w =>
    (Normal tt,
     {| borrowers := borrowers w ++ [b];
        transactions := transactions w;
        stored_borrowers := stored_borrowers w;
        stored_transactions := stored_transactions w;
        clock_reads := clock_reads w |}).

(** [this.transactions.push(transaction)] *)
Definition push_transaction (t : Transaction.t) : M unit :=
  fun w =>
    (Normal tt,
     {| borrowers := borrowers w;
        transactions := transactions w ++ [t];
        stored_borrowers := stored_borrowers w;
        stored_transactions := stored_transactions w;
        clock_reads := clock_reads w |}).

(** Assignment to the fields of the transaction object held at index
    [i] of [this.transactions]. *)
Definition set_transaction (i : nat) (t : Transaction.t) : M unit :=
  fun w =>
    (Normal tt,
     {| borrowers := borrowers w;
        transactions := <[i := t]> (transactions w);
        stored_borrowers := stored_borrowers w;
        stored_transactions := stored_transactions w;
        clock_reads := clock_reads w |}).

Definition saveBorrowers : M unit :=
  fun w =>
    (Normal tt,
     {| borrowers := borrowers w;
        transactions := transactions w;
        stored_borrowers := Some (borrowers w);
        stored_transactions := stored_transactions w;
        clock_reads := clock_reads w |}).

Definition saveTransactions : M unit :=
  fun w =>
    (Normal tt,
     {| borrowers := borrowers w;
        transactions := transactions w;
        stored_borrowers := stored_borrowers w;
        stored_transactions := Some (transactions w);
        clock_reads := clock_reads w |}).

(** [b.email && b.email.toLowerCase() === email.toLowerCase()] *)
Definition same_email (email : string) (b : Borrower.t) : Prop :=
  Borrower.email b <> EmptyString /\
  JS.toLowerCase (Borrower.email b) = JS.toLowerCase email.

Global Instance same_email_dec email b : Decision (same_email email b).
Proof. unfold same_email. apply _. Defined.

(** [v ? Validator.sanitize(v) : ''] *)
Definition sanitize_optional (v : option string) : string :=
  if JS.truthy v then Validator.sanitize (JS.text v) else EmptyString.

Definition registerBorrower (borrowerData : BorrowerData.t)
    : M (Result Borrower.t) :=
  if negb (JS.truthy (BorrowerData.name borrowerData))
     || (String.length (JS.trim (JS.text (BorrowerData.name borrowerData))) =? 0)%nat
  then ret (Failure MissingName)
  else
    do this <- get;
    let duplicate :=
      if JS.truthy (BorrowerData.email borrowerData)
      then list_find (same_email (JS.text (BorrowerData.email borrowerData)))
                     (borrowers this)
      else None in
    match duplicate with
    | Some _ => ret (Failure DuplicateEmail)
    | None =>
        do idNow <- Date_now;
        do created <- Date_now;
        do createdAt <- toISOString (Some created);
        let borrower :=
          {| Borrower.id := JS.toString idNow;
             Borrower.name := Validator.sanitize (JS.text (BorrowerData.name borrowerData));
             Borrower.email := sanitize_optional (BorrowerData.email borrowerData);
             Borrower.phone := sanitize_optional (BorrowerData.phone borrowerData);
             Borrower.address := sanitize_optional (BorrowerData.address borrowerData);
             Borrower.createdAt := createdAt |} in
        push_borrower borrower;;
        saveBorrowers;;
        ret (Success borrower)
    end.

(** [loanDays || this.defaultLoanDays]: [null] and [0] are falsy. *)
Definition loanDays_or_default (loanDays : option Z) : Z :=
  match loanDays with
  | Some n => if decide (n = 0) then defaultLoanDays else n
  | None => defaultLoanDays
  end.

Definition active_for (bookId : string) (t : Transaction.t) : Prop :=
  Transaction.bookId t = bookId /\ Transaction.status t = Active.

Global Instance active_for_dec bookId t : Decision (active_for bookId t).
Proof. unfold active_for. apply _. Defined.

Definition checkoutBook (bookId borrowerId : string) (loanDays : option Z)
    : M (Result Transaction.t) :=
  do this <- get;
  match list_find (fun b => Borrower.id b = borrowerId) (borrowers this) with
  | None => ret (Failure BorrowerNotFound)
  | Some _ =>
      match list_find (active_for bookId) (transactions this) with
      | Some _ => ret (Failure ItemAlreadyCheckedOut)
      | None =>
          do checkoutDate <- Date_now;
          let dueDate :=
            JSDate.setDate_add (LocalTZA env) checkoutDate
                               (loanDays_or_default loanDays) in
          do idNow <- Date_now;
          do checkoutISO <- toISOString (Some checkoutDate);
          do dueISO <- toISOString dueDate;
          do created <- Date_now;
          do createdAt <- toISOString (Some created);
          let transaction :=
            {| Transaction.id := JS.toString idNow;
               Transaction.bookId := bookId;
               Transaction.borrowerId := borrowerId;
               Transaction.checkoutDate := checkoutISO;
               Transaction.dueDate := dueISO;
               Transaction.returnDate := None;
               Transaction.status := Active;
               Transaction.fineAmount := 0%Q;
               Transaction.createdAt := createdAt |} in
          push_transaction transaction;;
          saveTransactions;;
          ret (Success transaction)
      end
  end.

(** The record left by the three assignments of [returnBook]. *)
Definition mark_returned (t : Transaction.t) (now : Z) (fineAmount : Q)
    : Transaction.t :=
  {| Transaction.id := Transaction.id t;
     Transaction.bookId := Transaction.bookId t;
     Transaction.borrowerId := Transaction.borrowerId t;
     Transaction.checkoutDate := Transaction.checkoutDate t;
     Transaction.dueDate := Transaction.dueDate t;
     Transaction.returnDate := Some now;
     Transaction.status := Returned;
     Transaction.fineAmount := fineAmount;
     Transaction.createdAt := Transaction.createdAt t |}.

(** [returnBook(transactionId, fineAmount = 0)]; an omitted fine is
    [None]. *)
Definition returnBook (transactionId : string) (fineAmount : option Q)
    : M (Result Transaction.t) :=
  let fineAmount := default 0%Q fineAmount in
  do this <- get;
  match list_find (fun t => Transaction.id t = transactionId) (transactions this) with
  | None => ret (Failure TransactionNotFound)
  | Some (i, transaction) =>
      if decide (Transaction.status transaction <> Active)
      then ret (Failure TransactionNotActive)
      else
        do now <- Date_now;
        do returnDate <- toISOString (Some now);
        let transaction' := mark_returned transaction returnDate fineAmount in
        set_transaction i transaction';;
        saveTransactions;;
        ret (Success transaction')
  end.

Definition getActiveTransactions (bookId : string) : M (list Transaction.t) :=
  do this <- get;
  ret (filter (active_for bookId) (transactions this)).

(** [Array.prototype.sort] with the comparator
    [(a, b) => new Date(b.createdAt) - new Date(a.createdAt)]: a stable
    sort, most recent first. *)
Fixpoint insert_by_recency (t : Transaction.t) (l : list Transaction.t)
    : list Transaction.t :=
  match l with
  | [] => [t]
  | x :: l' =>
      if decide (Transaction.createdAt x <= Transaction.createdAt t)
      then t :: l
      else x :: insert_by_recency t l'
  end.

Definition sort_by_recency (l : list Transaction.t) : list Transaction.t :=
  foldr insert_by_recency [] l.

Definition getBorrowerTransactions (borrowerId : string)
    : M (list Transaction.t) :=
  do this <- get;
  ret (sort_by_recency
         (filter (fun t => Transaction.borrowerId t = borrowerId)
                 (transactions this))).

(** The callback of [getOverdueBooks]. *)
Definition overdue_at (now : Z) (t : Transaction.t) : bool :=
  if decide (Transaction.status t <> Active) then false
  else bool_decide (Transaction.dueDate t < now).

Definition getOverdueBooks : M (list Transaction.t) :=
  do now <- Date_now;
  do this <- get;
  ret (List.filter (overdue_at now) (transactions this)).

(** [calculateFine(transactionId, dailyFine = 0.50)]; an omitted rate is
    [None]. *)
Definition calculateFine (transactionId : string) (dailyFine : option Q)
    : M Q :=
  let dailyFine := default (1 # 2)%Q dailyFine in
  do this <- get;
  match list_find (fun t => Transaction.id t = transactionId) (transactions this) with
  | None => ret 0%Q
  | Some (_, transaction) =>
      if decide (Transaction.status transaction <> Active) then ret 0%Q
      else
        do now <- Date_now;
        let dueDate := Transaction.dueDate transaction in
        if decide (now <= dueDate) then ret 0%Q
        else
          let daysOverdue := JSDate.ceilDays (now - dueDate) in
          ret (Binary64.mul_int daysOverdue dailyFine)
  end.

Definition getBorrower (borrowerId : string) : M (option Borrower.t) :=
  do this <- get;
  ret (snd <$> list_find (fun b => Borrower.id b = borrowerId) (borrowers this)).

Definition getAllBorrowers : M (list Borrower.t) :=
  do this <- get;
  ret (borrowers this).

End Engine.

(** ** Sequences of calls *)

(** One call of a public method by a client of the engine. *)
Inductive Call : Type :=
| CallRegisterBorrower (borrowerData : BorrowerData.t)
| CallCheckoutBook (bookId borrowerId : string) (loanDays : option Z)
| CallReturnBook (transactionId : string) (fineAmount : option Q)
| CallGetActiveTransactions (bookId : string)
| CallGetBorrowerTransactions (borrowerId : string)
| CallGetOverdueBooks
| CallCalculateFine (transactionId : string) (dailyFine : option Q)
| CallGetBorrower (borrowerId : string)
| CallGetAllBorrowers.

(** The world a call leaves behind, whatever it returned or threw. *)
Definition exec (env : Env) (c : Call) (w : World) : World :=
  match c with
  | CallRegisterBorrower d => snd (registerBorrower env d w)
  | CallCheckoutBook b r n => snd (checkoutBook env b r n w)
  | CallReturnBook i f => snd (returnBook env i f w)
  | CallGetActiveTransactions b => snd (getActiveTransactions b w)
  | CallGetBorrowerTransactions r => snd (getBorrowerTransactions r w)
  | CallGetOverdueBooks => snd (getOverdueBooks env w)
  | CallCalculateFine i r => snd (calculateFine env i r w)
  | CallGetBorrower r => snd (getBorrower r w)
  | CallGetAllBorrowers => snd (getAllBorrowers w)
  end.

Definition run (env : Env) (cs : list Call) (w : World) : World :=
  foldl (fun w c => exec env c w) w cs.

(** A state the engine can be in: some calls after it started with an
    empty ledger (and any borrower directory). *)
Definition reachable (env : Env) (w : World) : Prop :=
  exists w0 cs, transactions w0 = [] /\ w = run env cs w0.

(** What one call can do to the ledger: nothing, append one fresh
    [Active] transaction for a book that has none, or turn the first
    transaction carrying an identifier from [Active] to [Returned]. *)
Inductive ledger_step : Call -> list Transaction.t -> list Transaction.t -> Prop :=
| step_same c l :
    ledger_step c l l
| step_checkout bookId borrowerId loanDays l t :
    Transaction.bookId t = bookId ->
    Transaction.status t = Active ->
    Transaction.fineAmount t = 0%Q ->
    list_find (active_for bookId) l = None ->
    ledger_step (CallCheckoutBook bookId borrowerId loanDays) l (l ++ [t])
| step_return transactionId fineAmount l i t now :
    list_find (fun t' => Transaction.id t' = transactionId) l = Some (i, t) ->
    Transaction.status t = Active ->
    ledger_step (CallReturnBook transactionId fineAmount) l
                (<[i := mark_returned t now (default 0%Q fineAmount)]> l).

(** ** Properties of a ledger *)

(** The transactions with status [Active] that reference [bookId]. *)
Definition active_loans (bookId : string) (l : list Transaction.t)
    : list Transaction.t :=
  filter (active_for bookId) l.

Definition single_active_loan (l : list Transaction.t) : Prop :=
  forall bookId, (length (active_loans bookId l) <= 1)%nat.

(** The transaction an identifier resolves to: the first one that
    carries it, as [Array.prototype.find] returns it. *)
Definition find_transaction (transactionId : string) (l : list Transaction.t)
    : option Transaction.t :=
  snd <$> list_find (fun t => Transaction.id t = transactionId) l.

(** Two worlds that differ at most in the count of clock readings. *)
Definition same_data (w w' : World) : Prop :=
  borrowers w' = borrowers w /\
  transactions w' = transactions w /\
  stored_borrowers w' = stored_borrowers w /\
  stored_transactions w' = stored_transactions w.

(** Every [Returned] transaction is the one its identifier resolves to. *)
Definition returned_resolve (l : list Transaction.t) : Prop :=
  forall i t, l !! i = Some t -> Transaction.status t = Returned ->
    list_find (fun t' => Transaction.id t' = Transaction.id t) l = Some (i, t).

(** Overdue at [now], in the words of the specification: status
    [Active] and due instant strictly before [now]. *)
Definition overdue_spec (now : Z) (t : Transaction.t) : Prop :=
  Transaction.status t = Active /\ Transaction.dueDate t < now.

Global Instance overdue_spec_dec now t : Decision (overdue_spec now t).
Proof. unfold overdue_spec. apply _. Defined.

(** Some borrower of the directory has the email a registration
    supplies, letter case aside. *)
Definition email_taken (d : BorrowerData.t) (l : list Borrower.t) : Prop :=
  exists e b, BorrowerData.email d = Some e /\ b ∈ l /\ same_email e b.

(** A call that passes no negative fine to [returnBook]. *)
Definition fine_nonneg (c : Call) : Prop :=
  match c with
  | CallReturnBook _ (Some f) => (0 <= f)%Q
  | _ => True
  end.

(** ** Sample environments and data *)

Module Sample.

(** A clock that advances by one millisecond per reading, started at
    2024-01-01T00:00:00Z, in a host running on UTC. *)
Definition utc_env : Env :=
  {| clock := fun n => 1704067200000 + Z.of_nat n;
     LocalTZA := fun _ _ => 0 |}.

Definition ada : BorrowerData.t :=
  {| BorrowerData.name := Some "Ada";
     BorrowerData.email := Some "A@x.com";
     BorrowerData.phone := None;
     BorrowerData.address := None |}.

Definition fresh : World := constructor None None.

(** Ada registers (and gets identifier 1704067200000), borrows ITEM1
    for 14 days (transaction 1704067200003), and brings it back. *)
Definition registered : World :=
  run utc_env [CallRegisterBorrower ada] fresh.

Definition checked_out : World :=
  run utc_env [CallCheckoutBook "ITEM1" "1704067200000" (Some 14)] registered.

Definition returned : World :=
  run utc_env [CallReturnBook "1704067200003" (Some (1 # 2)%Q)] checked_out.

(** The loan as [checked_out] holds it, and as [returned] holds it. *)
Definition loan : Transaction.t :=
  {| Transaction.id := "1704067200003";
     Transaction.bookId := "ITEM1";
     Transaction.borrowerId := "1704067200000";
     Transaction.checkoutDate := 1704067200002;
     Transaction.dueDate := 1705276800002;
     Transaction.returnDate := None;
     Transaction.status := Active;
     Transaction.fineAmount := 0%Q;
     Transaction.createdAt := 1704067200004 |}.

Definition loan_returned : Transaction.t :=
  mark_returned loan 1704067200005 (1 # 2)%Q.

(** The same return, with a negative fine passed by the caller. *)
Definition returned_negative : World :=
  run utc_env [CallReturnBook "1704067200003" (Some (-1 # 1)%Q)] checked_out.

(** A host whose local offset moves from 0 to +1h on 2024-01-07. *)
Definition shifting_env : Env :=
  {| clock := fun n => 1704067200000 + Z.of_nat n;
     LocalTZA := fun t _ => if decide (t < 1704585600000) then 0 else 3600000 |}.

(** A clock read long after the sample loan fell due: 2024-01-16T00:00:00Z. *)
Definition late_env : Env :=
  {| clock := fun n => 1705363200000;
     LocalTZA := fun _ _ => 0 |}.


Definition ada_again : BorrowerData.t :=
  {| BorrowerData.name := Some "Ada L.";
     BorrowerData.email := Some "a@x.com";
     BorrowerData.phone := None;
     BorrowerData.address := None |}.

End Sample.

(** ** The reports that read the engine: [ReportsDashboard] *)

(** A catalogue entry, with the fields the dashboard reads. *)
Module Book.
Record t : Type := mk {
  id : string;
  title : string;
  author : string;
  isbn : option string;
  genre : option string;
  status : string;
  location : option string;
  dateAdded : Z
}.
End Book.

(** The four counters the [switch] of [getLibraryStats] increments. *)
Module BookCounts.
Record t : Type := mk {
  availableBooks : nat;
  borrowedBooks : nat;
  reservedBooks : nat;
  lostBooks : nat
}.
End BookCounts.

(** The object [getLibraryStats] returns. *)
Module LibraryStats.
Record t : Type := mk {
  totalBooks : nat;
  availableBooks : nat;
  borrowedBooks : nat;
  reservedBooks : nat;
  lostBooks : nat;
  totalBorrowers : nat;
  activeLoans : nat;
  overdueLoans : nat;
  totalTransactions : nat;
  totalFines : Q
}.
End LibraryStats.

(** The body of [this.books.forEach(book => { switch (book.status) ... })]. *)
Definition count_book (c : BookCounts.t) (book : Book.t) : BookCounts.t :=
  if decide (Book.status book = "Available") then
    BookCounts.mk (S (BookCounts.availableBooks c)) (BookCounts.borrowedBooks c)
                  (BookCounts.reservedBooks c) (BookCounts.lostBooks c)
  else if decide (Book.status book = "Borrowed") then
    BookCounts.mk (BookCounts.availableBooks c) (S (BookCounts.borrowedBooks c))
                  (BookCounts.reservedBooks c) (BookCounts.lostBooks c)
  else if decide (Book.status book = "Reserved") then
    BookCounts.mk (BookCounts.availableBooks c) (BookCounts.borrowedBooks c)
                  (S (BookCounts.reservedBooks c)) (BookCounts.lostBooks c)
  else if decide (Book.status book = "Lost") then
    BookCounts.mk (BookCounts.availableBooks c) (BookCounts.borrowedBooks c)
                  (BookCounts.reservedBooks c) (S (BookCounts.lostBooks c))
  else c.

Section Reports.

Context (env : Env).

(** [overdue.forEach(transaction =>
       stats.totalFines += this.borrowingSystem.calculateFine(transaction.id))] *)
Fixpoint sum_fines (overdue : list Transaction.t) (totalFines : Q) : M Q :=
  match overdue with
  | [] => ret totalFines
  | transaction :: rest =>
      do fine <- calculateFine env (Transaction.id transaction) None;
      sum_fines rest (totalFines + fine)%Q
  end.

Definition getLibraryStats (books : list Book.t) : M LibraryStats.t :=
  do allBorrowers <- getAllBorrowers;
  do this <- get;
  let totalTransactions := length (transactions this) in
  let counts := foldl count_book (BookCounts.mk 0 0 0 0) books in
  let activeTransactions :=
    filter (fun t => Transaction.status t = Active) (transactions this) in
  do overdue <- getOverdueBooks env;
  do totalFines <- sum_fines overdue 0%Q;
  ret {| LibraryStats.totalBooks := length books;
         LibraryStats.availableBooks := BookCounts.availableBooks counts;
         LibraryStats.borrowedBooks := BookCounts.borrowedBooks counts;
         LibraryStats.reservedBooks := BookCounts.reservedBooks counts;
         LibraryStats.lostBooks := BookCounts.lostBooks counts;
         LibraryStats.totalBorrowers := length allBorrowers;
         LibraryStats.activeLoans := length activeTransactions;
         LibraryStats.overdueLoans := length overdue;
         LibraryStats.totalTransactions := totalTransactions;
         LibraryStats.totalFines := totalFines |}.

End Reports.

(** ** Further properties of clocks, strings and directories *)

(** A clock that never goes backwards, and one whose every reading is
    later than the one before. *)
Definition monotone_clock (env : Env) : Prop :=
  forall n m, (n <= m)%nat -> clock env n <= clock env m.

Definition increasing_clock (env : Env) : Prop :=
  forall n m, (n < m)%nat -> clock env n < clock env m.

(** The code units of a string. *)
Definition chars (s : string) : list ascii := String.list_ascii_of_string s.

(** What [trimStart] does to the code units. *)
Fixpoint dropWhiteSpace (l : list ascii) : list ascii :=
  match l with
  | [] => []
  | c :: l' => if JS.isWhiteSpace c then dropWhiteSpace l' else l
  end.

(** The store holds what the arrays hold: an engine constructed from
    it starts with the same borrowers and transactions. *)
Definition mirrored (w : World) : Prop :=
  borrowers (constructor (stored_borrowers w) (stored_transactions w))
  = borrowers w /\
  transactions (constructor (stored_borrowers w) (stored_transactions w))
  = transactions w.

(** The fields of a transaction that no method assigns after creation. *)
Definition same_loan (t t' : Transaction.t) : Prop :=
  Transaction.id t' = Transaction.id t /\
  Transaction.bookId t' = Transaction.bookId t /\
  Transaction.borrowerId t' = Transaction.borrowerId t /\
  Transaction.checkoutDate t' = Transaction.checkoutDate t /\
  Transaction.dueDate t' = Transaction.dueDate t /\
  Transaction.createdAt t' = Transaction.createdAt t.

(** Every transaction was checked out at a reading the clock has
    given, was created no earlier, and was returned, if it was, no
    earlier either. *)
Definition well_dated (env : Env) (w : World) : Prop :=
  Forall (fun t =>
            (exists k, (k < clock_reads w)%nat /\
                       Transaction.checkoutDate t = clock env k) /\
            Transaction.checkoutDate t <= Transaction.createdAt t /\
            (forall r, Transaction.returnDate t = Some r ->
                       Transaction.checkoutDate t <= r))
         (transactions w).

(** Every identifier in the ledger is the numeral of a reading the
    clock has given. *)
Definition ids_stamped (env : Env) (w : World) : Prop :=
  Forall (fun s => exists k, (k < clock_reads w)%nat /\
                             s = JS.toString (clock env k))
         (Transaction.id <$> transactions w).

(** No identifier is carried by two transactions. *)
Definition distinct_ids (l : list Transaction.t) : Prop :=
  NoDup (Transaction.id <$> l).

(** No email is held, letter case aside, by two borrowers. *)
Definition distinct_emails (l : list Borrower.t) : Prop :=
  forall i j bi bj, l !! i = Some bi -> l !! j = Some bj ->
    Borrower.email bi <> EmptyString ->
    JS.toLowerCase (Borrower.email bi) = JS.toLowerCase (Borrower.email bj) ->
    i = j.

(** A call whose email, if it registers one, is stored as it is typed:
    sanitising changes nothing in it. *)
Definition plain_email (c : Call) : Prop :=
  match c with
  | CallRegisterBorrower d =>
      forall e, BorrowerData.email d = Some e -> Validator.sanitize e = e
  | _ => True
  end.





(** Most recent first. *)
Definition newer_first (a b : Transaction.t) : Prop :=
  Transaction.createdAt b <= Transaction.createdAt a.

(** More sample data: a host whose clock stands still, and a catalogue. *)
Module Shelf.

Definition books : list Book.t :=
  [ Book.mk "ITEM1" "Notes" "Ada" None None "Borrowed" None 1704067200000;
    Book.mk "ITEM2" "Sketch" "Ada" None None "Available" None 1704067200000;
    Book.mk "ITEM3" "Draft" "Ada" None None "Archived" None 1704067200000 ].

(** A host on UTC whose clock, first read on 2024-01-16T00:00:00Z, moves
    on by a day from one reading to the next. *)
Definition daily_env : Env :=
  {| clock := fun n => 1705363200000 + Z.of_nat n * JSDate.msPerDay;
     LocalTZA := fun _ _ => 0 |}.



(** Two registrations on a host whose clock stands still. *)
Definition registered_at_once : World :=
  run Sample.late_env
      [CallRegisterBorrower Sample.ada;
       CallRegisterBorrower
         {| BorrowerData.name := Some "Bob";
            BorrowerData.email := None;
            BorrowerData.phone := None;
            BorrowerData.address := None |}]
      Sample.fresh.

(** Ada as the directory holds her, and a borrower who types markup. *)
Definition ada_stored : Borrower.t :=
  Borrower.mk "1704067200000" "Ada" "A@x.com" "" "" 1704067200001.

Definition spaced_stored : Borrower.t :=
  Borrower.mk "1704067200000" "&lt;b&gt;Ada&lt;/b&gt;" "ada@x.com" "" ""
              1704067200001.

Definition spaced : BorrowerData.t :=
  {| BorrowerData.name := Some " <b>Ada</b> ";
     BorrowerData.email := Some "ada@x.com";
     BorrowerData.phone := None;
     BorrowerData.address := None |}.

End Shelf.

(** * Proofs *)

(** ** Running the methods *)

Ltac run_monad :=
  cbv beta delta [bind ret get throw toISOString Date_now push_transaction
                  push_borrower set_transaction saveTransactions
                  saveBorrowers] iota zeta; simpl.

Lemma run_snoc env cs c w :
  run env (cs ++ [c]) w = exec env c (run env cs w).
Proof. unfold run. by rewrite foldl_app. Qed.

Lemma reachable_ind env (P : World -> Prop) :
  (forall w0, transactions w0 = [] -> P w0) ->
  (forall w c, reachable env w -> P w -> P (exec env c w)) ->
  forall w, reachable env w -> P w.
Proof.
  intros Hinit Hstep w (w0 & cs & Hw0 & ->).
  induction cs as [|c cs IH] using rev_ind.
  - by apply Hinit.
  - rewrite run_snoc. apply Hstep; [|exact IH].
    by exists w0, cs.
Qed.

Lemma reachable_exec env c w :
  reachable env w -> reachable env (exec env c w).
Proof.
  intros (w0 & cs & Hw0 & ->). exists w0, (cs ++ [c]).
  by rewrite run_snoc.
Qed.

(** [checkoutBook], branch by branch. *)
Lemma checkoutBook_unknown_borrower env bookId borrowerId loanDays w :
  list_find (fun b => Borrower.id b = borrowerId) (borrowers w) = None ->
  checkoutBook env bookId borrowerId loanDays w
  = (Normal (Failure BorrowerNotFound), w).
Proof. intros H. unfold checkoutBook. run_monad. by rewrite H. Qed.

Lemma checkoutBook_already_out env bookId borrowerId loanDays w b a :
  list_find (fun b => Borrower.id b = borrowerId) (borrowers w) = Some b ->
  list_find (active_for bookId) (transactions w) = Some a ->
  checkoutBook env bookId borrowerId loanDays w
  = (Normal (Failure ItemAlreadyCheckedOut), w).
Proof. intros Hb Ha. unfold checkoutBook. run_monad. by rewrite Hb, Ha. Qed.

Lemma checkoutBook_invalid_due env bookId borrowerId loanDays w b :
  list_find (fun b => Borrower.id b = borrowerId) (borrowers w) = Some b ->
  list_find (active_for bookId) (transactions w) = None ->
  JSDate.setDate_add (LocalTZA env) (clock env (clock_reads w))
                     (loanDays_or_default loanDays) = None ->
  fst (checkoutBook env bookId borrowerId loanDays w) = Throw RangeError /\
  transactions (snd (checkoutBook env bookId borrowerId loanDays w))
  = transactions w.
Proof.
  intros Hb Ha Hd. unfold checkoutBook. run_monad.
  rewrite Hb, Ha. simpl. by rewrite Hd.
Qed.

Lemma checkoutBook_success env bookId borrowerId loanDays w b due :
  list_find (fun b => Borrower.id b = borrowerId) (borrowers w) = Some b ->
  list_find (active_for bookId) (transactions w) = None ->
  JSDate.setDate_add (LocalTZA env) (clock env (clock_reads w))
                     (loanDays_or_default loanDays) = Some due ->
  let t :=
    {| Transaction.id := JS.toString (clock env (S (clock_reads w)));
       Transaction.bookId := bookId;
       Transaction.borrowerId := borrowerId;
       Transaction.checkoutDate := clock env (clock_reads w);
       Transaction.dueDate := due;
       Transaction.returnDate := None;
       Transaction.status := Active;
       Transaction.fineAmount := 0%Q;
       Transaction.createdAt := clock env (S (S (clock_reads w))) |} in
  checkoutBook env bookId borrowerId loanDays w
  = (Normal (Success t),
     {| borrowers := borrowers w;
        transactions := transactions w ++ [t];
        stored_borrowers := stored_borrowers w;
        stored_transactions := Some (transactions w ++ [t]);
        clock_reads := S (S (S (clock_reads w))) |}).
Proof.
  intros Hb Ha Hd. unfold checkoutBook. run_monad.
  rewrite Hb, Ha. simpl. by rewrite Hd.
Qed.

(** [returnBook], branch by branch. *)
Lemma returnBook_not_found env transactionId fineAmount w :
  list_find (fun t => Transaction.id t = transactionId) (transactions w) = None ->
  returnBook env transactionId fineAmount w
  = (Normal (Failure TransactionNotFound), w).
Proof. intros H. unfold returnBook. run_monad. by rewrite H. Qed.

Lemma returnBook_not_active env transactionId fineAmount w i t :
  list_find (fun t => Transaction.id t = transactionId) (transactions w) = Some (i, t) ->
  Transaction.status t <> Active ->
  returnBook env transactionId fineAmount w
  = (Normal (Failure TransactionNotActive), w).
Proof.
  intros H Hs. unfold returnBook. run_monad. rewrite H.
  by destruct (decide (Transaction.status t <> Active)).
Qed.

Lemma returnBook_success env transactionId fineAmount w i t :
  list_find (fun t => Transaction.id t = transactionId) (transactions w) = Some (i, t) ->
  Transaction.status t = Active ->
  let t' := mark_returned t (clock env (clock_reads w)) (default 0%Q fineAmount) in
  returnBook env transactionId fineAmount w
  = (Normal (Success t'),
     {| borrowers := borrowers w;
        transactions := <[i := t']> (transactions w);
        stored_borrowers := stored_borrowers w;
        stored_transactions := Some (<[i := t']> (transactions w));
        clock_reads := S (clock_reads w) |}).
Proof.
  intros H Hs. unfold returnBook. run_monad. rewrite H.
  destruct (decide (Transaction.status t <> Active)); [congruence|done].
Qed.

Lemma same_data_refl w : same_data w w.
Proof. by repeat split. Qed.

Lemma calculateFine_same_data env transactionId dailyFine w :
  same_data w (snd (calculateFine env transactionId dailyFine w)).
Proof.
  unfold calculateFine. run_monad.
  destruct (list_find _ (transactions w)) as [[i t]|]; simpl;
    [|apply same_data_refl].
  destruct (decide (Transaction.status t <> Active)); simpl;
    [apply same_data_refl|].
  destruct (decide (_ <= _)); simpl; by repeat split.
Qed.

Lemma getOverdueBooks_same_data env w :
  same_data w (snd (getOverdueBooks env w)).
Proof. unfold getOverdueBooks. run_monad. by repeat split. Qed.

Lemma registerBorrower_transactions env d w :
  transactions (snd (registerBorrower env d w)) = transactions w.
Proof.
  unfold registerBorrower.
  destruct (negb _ || _); [done|]. run_monad.
  destruct (if JS.truthy (BorrowerData.email d) then _ else _); done.
Qed.

(** ** Every call is a ledger step *)

Lemma checkoutBook_ledger_step env bookId borrowerId loanDays w :
  ledger_step (CallCheckoutBook bookId borrowerId loanDays) (transactions w)
    (transactions (snd (checkoutBook env bookId borrowerId loanDays w))).
Proof.
  destruct (list_find (fun b => Borrower.id b = borrowerId) (borrowers w))
    as [b|] eqn:Hb.
  2: { rewrite checkoutBook_unknown_borrower by done. constructor. }
  destruct (list_find (active_for bookId) (transactions w)) as [a|] eqn:Ha.
  { erewrite checkoutBook_already_out by done. constructor. }
  destruct (JSDate.setDate_add (LocalTZA env) (clock env (clock_reads w))
              (loanDays_or_default loanDays)) as [due|] eqn:Hd.
  - erewrite checkoutBook_success by done. simpl. by constructor.
  - edestruct checkoutBook_invalid_due as [_ ->]; [done..|]. constructor.
Qed.

Lemma returnBook_ledger_step env transactionId fineAmount w :
  ledger_step (CallReturnBook transactionId fineAmount) (transactions w)
    (transactions (snd (returnBook env transactionId fineAmount w))).
Proof.
  destruct (list_find (fun t => Transaction.id t = transactionId)
              (transactions w)) as [[i t]|] eqn:Hf.
  2: { rewrite returnBook_not_found by done. constructor. }
  destruct (decide (Transaction.status t = Active)) as [Hs|Hs].
  - erewrite returnBook_success by done. simpl. by constructor.
  - erewrite returnBook_not_active by done. constructor.
Qed.

Lemma exec_ledger_step env c w :
  ledger_step c (transactions w) (transactions (exec env c w)).
Proof.
  destruct c; cbn [exec].
  - rewrite registerBorrower_transactions. constructor.
  - apply checkoutBook_ledger_step.
  - apply returnBook_ledger_step.
  - constructor.
  - constructor.
  - destruct (getOverdueBooks_same_data env w) as (_ & -> & _). constructor.
  - destruct (calculateFine_same_data env transactionId dailyFine w)
      as (_ & -> & _). constructor.
  - constructor.
  - constructor.
Qed.

(** ** The single-active-loan invariant *)

Lemma active_loans_none bookId l :
  list_find (active_for bookId) l = None -> active_loans bookId l = [].
Proof.
  rewrite list_find_None. unfold active_loans.
  induction 1 as [|t l Ht _ IH]; [done|].
  by rewrite filter_cons_False.
Qed.

Lemma active_loans_snoc bookId l t :
  active_loans bookId (l ++ [t])
  = active_loans bookId l ++ (if decide (active_for bookId t) then [t] else []).
Proof.
  unfold active_loans. by rewrite filter_app.
Qed.

Lemma active_loans_mark_returned bookId l i t now fine :
  (length (active_loans bookId (<[i := mark_returned t now fine]> l))
   <= length (active_loans bookId l))%nat.
Proof.
  unfold active_loans. revert i.
  induction l as [|x l IH]; intros [|i]; simpl; try done.
  - rewrite filter_cons_False by (intros [_ Hs]; discriminate Hs).
    rewrite filter_cons. destruct (decide (active_for bookId x)); simpl; lia.
  - rewrite !filter_cons. specialize (IH i).
    destruct (decide (active_for bookId x)); simpl; lia.
Qed.

Lemma ledger_step_single_active c l l' :
  ledger_step c l l' -> single_active_loan l -> single_active_loan l'.
Proof.
  intros Hstep Hinv book.
  destruct Hstep as [c l|bookId borrowerId loanDays l t Hb Hs Hf Hnone
                    |transactionId fineAmount l i t now Hfind Hs].
  - apply Hinv.
  - rewrite active_loans_snoc, length_app.
    destruct (decide (active_for book t)) as [[Hbook _]|_]; simpl.
    + assert (book = bookId) as -> by congruence.
      rewrite (active_loans_none _ _ Hnone). simpl. lia.
    + specialize (Hinv book). lia.
  - etrans; [apply active_loans_mark_returned|apply Hinv].
Qed.

Lemma reachable_single_active env w :
  reachable env w -> single_active_loan (transactions w).
Proof.
  induction 1 as [w0 H0|w c _ IH] using reachable_ind.
  - rewrite H0. intros book. simpl. lia.
  - eapply ledger_step_single_active; [apply exec_ledger_step|exact IH].
Qed.

Lemma checkoutBook_refuses env bookId borrowerId loanDays w t :
  t ∈ transactions w -> active_for bookId t ->
  exists e, checkoutBook env bookId borrowerId loanDays w
            = (Normal (Failure e), w).
Proof.
  intros Hin Hact.
  destruct (list_find (fun b => Borrower.id b = borrowerId) (borrowers w))
    as [b|] eqn:Hb.
  2: { eexists. by apply checkoutBook_unknown_borrower. }
  destruct (list_find_elem_of (active_for bookId) _ _ Hin Hact) as [a Ha].
  eexists. by eapply checkoutBook_already_out.
Qed.

Lemma returnBook_never_activates env transactionId fineAmount w i t :
  transactions (snd (returnBook env transactionId fineAmount w)) !! i = Some t ->
  Transaction.status t = Active ->
  transactions w !! i = Some t.
Proof.
  intros Hl Hs.
  pose proof (returnBook_ledger_step env transactionId fineAmount w) as Hstep.
  inversion Hstep as [c l Hc Hl0 Hl1| |tid f l j t0 now Hfind Hs0 Hc Hl0 Hl1].
  - by rewrite Hl1.
  - rewrite <- Hl1 in Hl.
    destruct (decide (i = j)) as [->|Hne].
    + apply list_find_Some in Hfind as (Hj & _).
      rewrite list_lookup_insert_eq in Hl by (by eapply lookup_lt_Some).
      injection Hl as <-. discriminate Hs.
    + by rewrite list_lookup_insert_ne in Hl.
Qed.

(** C1. In every state reachable from an empty ledger, each book has at
    most one transaction with status [Active]; [checkoutBook] fails and
    leaves the engine as it was whenever the ledger holds an [Active]
    transaction for the book; and a transaction that is [Active] after
    [returnBook] was the same [Active] transaction before it. *)
Theorem single_active_loan_invariant env :
  (forall w, reachable env w ->
     forall bookId, (length (active_loans bookId (transactions w)) <= 1)%nat) /\
  (forall w bookId borrowerId loanDays t,
     t ∈ transactions w ->
     Transaction.bookId t = bookId -> Transaction.status t = Active ->
     exists e, checkoutBook env bookId borrowerId loanDays w
               = (Normal (Failure e), w)) /\
  (forall w transactionId fineAmount i t,
     transactions (snd (returnBook env transactionId fineAmount w)) !! i = Some t ->
     Transaction.status t = Active ->
     transactions w !! i = Some t).
Proof.
  split; [|split].
  - intros w Hw. exact (reachable_single_active env w Hw).
  - intros w bookId borrowerId loanDays t Hin Hb Hs.
    by eapply checkoutBook_refuses.
  - intros. by eapply returnBook_never_activates.
Qed.

(** ** Failed calls *)

Lemma checkoutBook_failure_inv env bookId borrowerId loanDays w e w' :
  checkoutBook env bookId borrowerId loanDays w = (Normal (Failure e), w') ->
  w' = w /\
  (e = BorrowerNotFound \/
   e = ItemAlreadyCheckedOut /\
   exists t, t ∈ transactions w /\ active_for bookId t).
Proof.
  destruct (list_find (fun b => Borrower.id b = borrowerId) (borrowers w))
    as [b|] eqn:Hb.
  2: { rewrite checkoutBook_unknown_borrower by done.
       intros [= <- <-]. auto. }
  destruct (list_find (active_for bookId) (transactions w)) as [[j a]|] eqn:Ha.
  { erewrite checkoutBook_already_out by done. intros [= <- <-].
    apply list_find_Some in Ha as (Hj & Hact & _).
    split; [done|right]. split; [done|]. exists a.
    split; [by eapply list_elem_of_lookup_2|done]. }
  destruct (JSDate.setDate_add (LocalTZA env) (clock env (clock_reads w))
              (loanDays_or_default loanDays)) as [due|] eqn:Hd.
  - erewrite checkoutBook_success by done. discriminate.
  - edestruct checkoutBook_invalid_due as [Hthrow _]; [done..|].
    intros Heq. rewrite Heq in Hthrow. discriminate.
Qed.

Lemma returnBook_failure_inv env transactionId fineAmount w e w' :
  returnBook env transactionId fineAmount w = (Normal (Failure e), w') ->
  w' = w.
Proof.
  destruct (list_find (fun t => Transaction.id t = transactionId)
              (transactions w)) as [[i t]|] eqn:Hf.
  2: { rewrite returnBook_not_found by done. by intros [= <- <-]. }
  destruct (decide (Transaction.status t = Active)) as [Hs|Hs].
  - erewrite returnBook_success by done. discriminate.
  - erewrite returnBook_not_active by done. by intros [= <- <-].
Qed.

(** C3. When [checkoutBook] or [returnBook] returns a failure, the
    transactions array after the call is the array before it; nothing
    else of the engine changed either. *)
Theorem failed_call_leaves_ledger env w w' e :
  (exists bookId borrowerId loanDays,
     checkoutBook env bookId borrowerId loanDays w = (Normal (Failure e), w')) \/
  (exists transactionId fineAmount,
     returnBook env transactionId fineAmount w = (Normal (Failure e), w')) ->
  transactions w' = transactions w /\ w' = w.
Proof.
  intros [(bookId & borrowerId & loanDays & H)|(transactionId & fineAmount & H)].
  - apply checkoutBook_failure_inv in H as [-> _]. done.
  - apply returnBook_failure_inv in H as ->. done.
Qed.

(** ** The outcomes of [returnBook] *)

Lemma find_transaction_None transactionId l :
  find_transaction transactionId l = None <->
  forall t, t ∈ l -> Transaction.id t <> transactionId.
Proof.
  unfold find_transaction. rewrite fmap_None, list_find_None, Forall_forall.
  done.
Qed.

Lemma find_transaction_Some transactionId l t :
  find_transaction transactionId l = Some t <->
  exists i, list_find (fun t' => Transaction.id t' = transactionId) l = Some (i, t).
Proof.
  unfold find_transaction. rewrite fmap_Some. split.
  - intros ([i t'] & H & ->). by exists i.
  - intros [i H]. by exists (i, t).
Qed.

(** C4. [returnBook] fails with [TransactionNotFound] exactly when no
    transaction carries the identifier, fails with
    [TransactionNotActive] exactly when the transaction the identifier
    resolves to has a status other than [Active], and otherwise
    succeeds: that transaction gets the current instant as return date,
    status [Returned], and the supplied fine, 0 when none is supplied;
    its other fields and all other transactions stay as they were. *)
Theorem returnBook_outcomes env transactionId fineAmount w :
  let l := transactions w in
  let out := returnBook env transactionId fineAmount w in
  (fst out = Normal (Failure TransactionNotFound) <->
   forall t, t ∈ l -> Transaction.id t <> transactionId) /\
  (fst out = Normal (Failure TransactionNotActive) <->
   exists t, find_transaction transactionId l = Some t /\
             Transaction.status t <> Active) /\
  (forall t, find_transaction transactionId l = Some t ->
     Transaction.status t = Active ->
     exists i t',
       l !! i = Some t /\
       fst out = Normal (Success t') /\
       transactions (snd out) = <[i := t']> l /\
       stored_transactions (snd out) = Some (<[i := t']> l) /\
       Transaction.returnDate t' = Some (clock env (clock_reads w)) /\
       Transaction.status t' = Returned /\
       Transaction.fineAmount t'
       = match fineAmount with Some f => f | None => 0%Q end /\
       Transaction.id t' = Transaction.id t /\
       Transaction.bookId t' = Transaction.bookId t /\
       Transaction.borrowerId t' = Transaction.borrowerId t /\
       Transaction.checkoutDate t' = Transaction.checkoutDate t /\
       Transaction.dueDate t' = Transaction.dueDate t /\
       Transaction.createdAt t' = Transaction.createdAt t).
Proof.
  intros l out. subst l out.
  rewrite <- find_transaction_None.
  destruct (list_find (fun t => Transaction.id t = transactionId)
              (transactions w)) as [[i t]|] eqn:Hf.
  - assert (find_transaction transactionId (transactions w) = Some t) as Hft
      by (apply find_transaction_Some; eauto).
    rewrite Hft.
    destruct (decide (Transaction.status t = Active)) as [Hs|Hs].
    + erewrite returnBook_success by done. simpl.
      split; [split; discriminate|]. split.
      * split; [discriminate|]. intros (t0 & [= <-] & Hs0). done.
      * intros t0 [= <-] _. eexists i, _.
        apply list_find_Some in Hf as (Hi & _).
        split; [done|]. split; [done|].
        by destruct fineAmount.
    + erewrite returnBook_not_active by done. simpl.
      split; [split; discriminate|]. split.
      * split; [eauto|done].
      * intros t0 [= <-] Hs0. done.
  - assert (find_transaction transactionId (transactions w) = None) as Hft
      by (unfold find_transaction; by rewrite Hf).
    rewrite Hft, returnBook_not_found by done. simpl.
    split; [done|]. split.
    + split; [discriminate|]. intros (t0 & [=] & _).
    + intros t0 [=].
Qed.

(** ** [Returned] is terminal *)

Lemma ledger_step_returned_kept c l l' i t :
  ledger_step c l l' ->
  l !! i = Some t -> Transaction.status t = Returned ->
  l' !! i = Some t.
Proof.
  intros Hstep Hi Hs.
  destruct Hstep as [c l| bookId borrowerId loanDays l t0 _ _ _ _
                    |transactionId fineAmount l j t0 now Hfind Hs0].
  - done.
  - by apply lookup_app_l_Some.
  - apply list_find_Some in Hfind as (Hj & _).
    rewrite list_lookup_insert_ne; [done|].
    intros ->. congruence.
Qed.

Lemma run_returned_kept env cs w i t :
  transactions w !! i = Some t -> Transaction.status t = Returned ->
  transactions (run env cs w) !! i = Some t.
Proof.
  intros Hi Hs. induction cs as [|c cs IH] using rev_ind; [done|].
  rewrite run_snoc.
  eapply ledger_step_returned_kept; [apply exec_ledger_step|done..].
Qed.

Lemma ledger_step_returned_resolve c l l' :
  ledger_step c l l' -> returned_resolve l -> returned_resolve l'.
Proof.
  intros Hstep Hinv.
  destruct Hstep as [c l| bookId borrowerId loanDays l t0 _ Hact _ _
                    |transactionId fineAmount l j t0 now Hfind Hs0].
  - done.
  - intros i t Hi Hs.
    apply lookup_app_Some in Hi as [Hi|[_ Hi]].
    + apply list_find_app_l. by apply Hinv.
    + apply list_lookup_singleton_Some in Hi as [_ <-]. congruence.
  - apply list_find_Some in Hfind as (Hj & Hid & Hmin).
    assert (j < length l)%nat as Hlen by (by eapply lookup_lt_Some).
    intros i t Hi Hs. apply list_find_Some.
    destruct (decide (i = j)) as [->|Hne].
    + rewrite list_lookup_insert_eq in Hi by done. injection Hi as <-.
      split; [by rewrite list_lookup_insert_eq|]. split; [done|].
      intros k y Hk Hlt. rewrite list_lookup_insert_ne in Hk by lia.
      simpl. rewrite Hid. by eapply Hmin.
    + rewrite list_lookup_insert_ne in Hi by done.
      pose proof (Hinv _ _ Hi Hs) as Hres.
      apply list_find_Some in Hres as (_ & _ & Hmin').
      split; [by rewrite list_lookup_insert_ne|]. split; [done|].
      intros k y Hk Hlt.
      destruct (decide (k = j)) as [->|Hkj].
      * rewrite list_lookup_insert_eq in Hk by done. injection Hk as <-.
        simpl. by eapply Hmin'.
      * rewrite list_lookup_insert_ne in Hk by done. by eapply Hmin'.
Qed.

Lemma reachable_returned_resolve env w :
  reachable env w -> returned_resolve (transactions w).
Proof.
  induction 1 as [w0 H0|w c _ IH] using reachable_ind.
  - rewrite H0. intros i t Hi. by rewrite lookup_nil in Hi.
  - eapply ledger_step_returned_resolve; [apply exec_ledger_step|exact IH].
Qed.

Lemma run_reachable env cs w :
  reachable env w -> reachable env (run env cs w).
Proof.
  intros Hw. induction cs as [|c cs IH] using rev_ind; [done|].
  rewrite run_snoc. by apply reachable_exec.
Qed.

(** C6. Once a transaction of a reachable ledger is [Returned], then
    after any further calls it is still there, field for field, and
    [returnBook] on its identifier fails with [TransactionNotActive]
    and changes nothing, whatever fine is passed. *)
Theorem returned_is_terminal env w i t cs fineAmount :
  reachable env w ->
  transactions w !! i = Some t ->
  Transaction.status t = Returned ->
  let w' := run env cs w in
  transactions w' !! i = Some t /\
  returnBook env (Transaction.id t) fineAmount w'
  = (Normal (Failure TransactionNotActive), w').
Proof.
  intros Hw Hi Hs w'.
  assert (transactions w' !! i = Some t) as Hi' by (by apply run_returned_kept).
  split; [done|].
  eapply returnBook_not_active.
  - apply (reachable_returned_resolve env w'); [by apply run_reachable|done..].
  - congruence.
Qed.

(** ** Fine amounts *)

Lemma ledger_step_active_fine c l l' :
  ledger_step c l l' ->
  Forall (fun t => Transaction.status t = Active ->
                   Transaction.fineAmount t = 0%Q) l ->
  Forall (fun t => Transaction.status t = Active ->
                   Transaction.fineAmount t = 0%Q) l'.
Proof.
  intros Hstep Hinv.
  destruct Hstep as [c l| bookId borrowerId loanDays l t0 _ _ Hfine _
                    |transactionId fineAmount l j t0 now Hfind Hs0].
  - done.
  - apply Forall_app. split; [done|]. by constructor.
  - apply Forall_insert; [done|]. discriminate.
Qed.

Lemma reachable_active_fine env w :
  reachable env w ->
  Forall (fun t => Transaction.status t = Active ->
                   Transaction.fineAmount t = 0%Q) (transactions w).
Proof.
  induction 1 as [w0 H0|w c _ IH] using reachable_ind.
  - rewrite H0. constructor.
  - eapply ledger_step_active_fine; [apply exec_ledger_step|exact IH].
Qed.

Lemma ledger_step_fine_nonneg c l l' :
  fine_nonneg c ->
  ledger_step c l l' ->
  Forall (fun t => (0 <= Transaction.fineAmount t)%Q) l ->
  Forall (fun t => (0 <= Transaction.fineAmount t)%Q) l'.
Proof.
  intros Hc Hstep Hinv.
  destruct Hstep as [c l| bookId borrowerId loanDays l t0 _ _ Hfine _
                    |transactionId fineAmount l j t0 now Hfind Hs0].
  - done.
  - apply Forall_app. split; [done|]. constructor; [|done].
    rewrite Hfine. apply Qle_refl.
  - apply Forall_insert; [done|]. simpl.
    destruct fineAmount as [f|]; simpl; [exact Hc|apply Qle_refl].
Qed.

Lemma run_fine_nonneg env cs w0 :
  transactions w0 = [] ->
  Forall fine_nonneg cs ->
  Forall (fun t => (0 <= Transaction.fineAmount t)%Q)
         (transactions (run env cs w0)).
Proof.
  intros H0. induction cs as [|c cs IH] using rev_ind; intros Hcs.
  - simpl. rewrite H0. constructor.
  - apply Forall_app in Hcs as [Hcs Hc]. inversion_clear Hc as [|? ? Hc' _].
    rewrite run_snoc.
    eapply ledger_step_fine_nonneg; [done|apply exec_ledger_step|by apply IH].
Qed.

Lemma returnBook_sets_fine env transactionId fineAmount w i t :
  list_find (fun t' => Transaction.id t' = transactionId) (transactions w)
  = Some (i, t) ->
  Transaction.status t = Active ->
  transactions (exec env (CallReturnBook transactionId fineAmount) w) !! i
  = Some (mark_returned t (clock env (clock_reads w)) (default 0%Q fineAmount)).
Proof.
  intros Hf Hs. cbn [exec]. erewrite returnBook_success by done. simpl.
  apply list_find_Some in Hf as (Hi & _).
  apply list_lookup_insert_eq. by eapply lookup_lt_Some.
Qed.

(** C7 (as the code has it). In every reachable state the fine of an
    [Active] transaction is 0; a successful [returnBook] records the fine
    it was passed (0 when none); a [Returned] transaction is never
    touched again, so its fine keeps that value through all later calls;
    and fines are non-negative as long as no call passes a negative
    one. *)
Theorem fine_amount_lifecycle env :
  (forall w t, reachable env w -> t ∈ transactions w ->
     Transaction.status t = Active -> Transaction.fineAmount t = 0%Q) /\
  (forall w transactionId fineAmount i t,
     list_find (fun t' => Transaction.id t' = transactionId) (transactions w)
     = Some (i, t) ->
     Transaction.status t = Active ->
     exists t',
       transactions (exec env (CallReturnBook transactionId fineAmount) w) !! i
       = Some t' /\
       Transaction.status t' = Returned /\
       Transaction.fineAmount t'
       = match fineAmount with Some f => f | None => 0%Q end) /\
  (forall w cs i t,
     transactions w !! i = Some t -> Transaction.status t = Returned ->
     transactions (run env cs w) !! i = Some t) /\
  (forall w0 cs t,
     transactions w0 = [] -> Forall fine_nonneg cs ->
     t ∈ transactions (run env cs w0) ->
     (0 <= Transaction.fineAmount t)%Q).
Proof.
  repeat split.
  - intros w t Hw Hin.
    pose proof (reachable_active_fine env w Hw) as Hall.
    rewrite Forall_forall in Hall. by apply Hall.
  - intros w transactionId fineAmount i t Hf Hs. eexists. split.
    + by apply returnBook_sets_fine.
    + split; [done|]. by destruct fineAmount.
  - intros w cs i t. apply run_returned_kept.
  - intros w0 cs t H0 Hcs Hin.
    pose proof (run_fine_nonneg env cs w0 H0 Hcs) as Hall.
    rewrite Forall_forall in Hall. by apply Hall.
Qed.

(** Against C7 as first stated, with fines non-negative in every
    reachable state: a caller can pass a negative fine and the ledger
    records it. *)
Lemma negative_fine_recorded :
  reachable Sample.utc_env Sample.returned_negative /\
  exists t, transactions Sample.returned_negative !! 0%nat = Some t /\
            Transaction.status t = Returned /\
            ~ (0 <= Transaction.fineAmount t)%Q.
Proof.
  split.
  - exists Sample.fresh,
      [CallRegisterBorrower Sample.ada;
       CallCheckoutBook "ITEM1" "1704067200000" (Some 14);
       CallReturnBook "1704067200003" (Some (-1 # 1)%Q)].
    split; reflexivity.
  - eexists. split; [vm_compute; reflexivity|].
    split; [reflexivity|]. simpl. intros H. by vm_compute in H.
Qed.

(** ** Due dates *)

Lemma checkoutBook_success_inv env bookId borrowerId loanDays w t w' :
  checkoutBook env bookId borrowerId loanDays w = (Normal (Success t), w') ->
  JSDate.setDate_add (LocalTZA env) (clock env (clock_reads w))
                     (loanDays_or_default loanDays)
  = Some (Transaction.dueDate t) /\
  Transaction.checkoutDate t = clock env (clock_reads w) /\
  Transaction.status t = Active /\
  Transaction.fineAmount t = 0%Q /\
  transactions w' = transactions w ++ [t].
Proof.
  destruct (list_find (fun b => Borrower.id b = borrowerId) (borrowers w))
    as [b|] eqn:Hb.
  2: { by rewrite checkoutBook_unknown_borrower. }
  destruct (list_find (active_for bookId) (transactions w)) as [a|] eqn:Ha.
  { by erewrite checkoutBook_already_out. }
  destruct (JSDate.setDate_add (LocalTZA env) (clock env (clock_reads w))
              (loanDays_or_default loanDays)) as [due|] eqn:Hd.
  - erewrite checkoutBook_success by done. by intros [= <- <-].
  - edestruct checkoutBook_invalid_due as [Hthrow _]; [done..|].
    intros Heq. rewrite Heq in Hthrow. discriminate.
Qed.

Lemma setDate_add_Some tz t n due :
  JSDate.setDate_add tz t n = Some due ->
  due = JSDate.UTC tz (JSDate.LocalTime tz t + n * JSDate.msPerDay).
Proof.
  unfold JSDate.setDate_add, JSDate.TimeClip.
  destruct (decide _); congruence.
Qed.

(** C2 (as the code has it). A checkout that succeeds at instant [T]
    with an explicit loan period [n] other than 0, on a host whose local
    offset at the due date is the one in force at [T], creates a
    transaction checked out at [T] and due at exactly [T] plus [n] days of
    24 hours; and a checkout with no period does what a checkout with a
    period of 14 days does. *)
Theorem checkout_due_date env bookId borrowerId w :
  let T := clock env (clock_reads w) in
  (forall n t w',
     n <> 0 ->
     LocalTZA env (JSDate.LocalTime (LocalTZA env) T + n * JSDate.msPerDay) false
     = LocalTZA env T true ->
     checkoutBook env bookId borrowerId (Some n) w = (Normal (Success t), w') ->
     Transaction.checkoutDate t = T /\
     Transaction.dueDate t = T + n * JSDate.msPerDay) /\
  checkoutBook env bookId borrowerId None w
  = checkoutBook env bookId borrowerId (Some 14) w.
Proof.
  intros T. split; [|reflexivity].
  intros n t w' Hn Htz Hco.
  apply checkoutBook_success_inv in Hco as (Hdue & Hout & _).
  split; [done|].
  apply setDate_add_Some in Hdue. rewrite Hdue.
  unfold loanDays_or_default. destruct (decide (n = 0)); [done|].
  unfold JSDate.UTC. fold T. rewrite Htz. unfold JSDate.LocalTime. lia.
Qed.

(** Against C2 as first stated, for every explicit period: a period of
    0 days is taken as no period, and the loan runs 14 days. *)
Lemma checkout_zero_days_due_in_14 :
  let T := clock Sample.utc_env (clock_reads Sample.registered) in
  exists t w',
    checkoutBook Sample.utc_env "ITEM1" "1704067200000" (Some 0) Sample.registered
    = (Normal (Success t), w') /\
    Transaction.checkoutDate t = T /\
    Transaction.dueDate t = T + 14 * JSDate.msPerDay /\
    Transaction.dueDate t <> T + 0 * JSDate.msPerDay.
Proof.
  eexists _, _. split; [vm_compute; reflexivity|].
  repeat split. vm_compute. discriminate.
Qed.

(** Where the local offset changes between checkout and due date, the
    due instant is 14 local calendar days, not 14 times 24 hours, away. *)
Example checkout_across_offset_change :
  let w := run Sample.shifting_env [CallRegisterBorrower Sample.ada] Sample.fresh in
  let T := clock Sample.shifting_env (clock_reads w) in
  exists t w',
    checkoutBook Sample.shifting_env "ITEM1" "1704067200000" (Some 14) w
    = (Normal (Success t), w') /\
    Transaction.dueDate t = T + 14 * JSDate.msPerDay - 3600000.
Proof.
  eexists _, _. split; vm_compute; reflexivity.
Qed.

(** ** Fines *)

Lemma ceilDays_div ms :
  JSDate.ceilDays ms = - ((- ms) / JSDate.msPerDay).
Proof.
  unfold JSDate.ceilDays, Qceiling, Qfloor. simpl.
  by rewrite Z.mul_1_r.
Qed.

(** [ceilDays ms] is the number of days, started or complete, in [ms]. *)
Lemma ceilDays_unique ms d :
  (d - 1) * JSDate.msPerDay < ms <= d * JSDate.msPerDay ->
  JSDate.ceilDays ms = d.
Proof.
  intros H. rewrite ceilDays_div.
  assert (0 < JSDate.msPerDay) as Hpos by reflexivity.
  enough ((- ms) / JSDate.msPerDay = - d) by lia.
  symmetry. apply (Z.div_unique_pos _ _ _ (d * JSDate.msPerDay - ms)); lia.
Qed.

Lemma ceilDays_bounds ms :
  (JSDate.ceilDays ms - 1) * JSDate.msPerDay < ms
  <= JSDate.ceilDays ms * JSDate.msPerDay.
Proof.
  rewrite ceilDays_div.
  assert (0 < JSDate.msPerDay) as Hpos by reflexivity.
  pose proof (Z.div_mod (- ms) JSDate.msPerDay ltac:(lia)) as Hdm.
  pose proof (Z.mod_pos_bound (- ms) JSDate.msPerDay Hpos) as Hm.
  lia.
Qed.


(** Doubles: halving an integer, exact products, one times a number. *)
Lemma twos_nonneg p : 0 <= Binary64.twos p.
Proof. induction p; simpl; lia. Qed.

Lemma representable_half k :
  Binary64.representable (inject_Z k) = true ->
  Binary64.representable (inject_Z k * (1 # 2)) = true.
Proof.
  unfold Binary64.representable, Binary64.decompose, inject_Z, Qmult.
  cbn [Qnum Qden]. rewrite Z.mul_1_r.
  change (Binary64.odd_part 1) with 1%positive.
  change (Binary64.odd_part (1 * 2)) with 1%positive.
  change (Binary64.twos 1) with 0.
  change (Binary64.twos (1 * 2)) with 1.
  destruct k as [|n|n]; [done|..];
    rewrite Z.mod_1_r; rewrite !decide_True by done;
    rewrite !andb_true_iff, !Z.ltb_lt, !Z.leb_le;
    pose proof (twos_nonneg n); lia.
Qed.

Lemma to_number_representable x :
  Binary64.representable x = true -> Binary64.to_number x = x.
Proof. intros H. unfold Binary64.to_number. by rewrite H. Qed.


Lemma mul_int_half k :
  Binary64.mul_int k (1 # 2) = (inject_Z k * (1 # 2))%Q.
Proof.
  unfold Binary64.mul_int.
  rewrite (to_number_representable (1 # 2)) by reflexivity.
  destruct (Binary64.representable (inject_Z k)) eqn:Hk; [|done].
  by apply to_number_representable, representable_half.
Qed.



Lemma calculateFine_overdue env transactionId dailyFine w t :
  let now := clock env (clock_reads w) in
  find_transaction transactionId (transactions w) = Some t ->
  Transaction.status t = Active ->
  Transaction.dueDate t < now ->
  fst (calculateFine env transactionId dailyFine w)
  = Normal (Binary64.mul_int (JSDate.ceilDays (now - Transaction.dueDate t))
                             (default (1 # 2)%Q dailyFine)).
Proof.
  intros now. unfold find_transaction, calculateFine. run_monad.
  destruct (list_find _ (transactions w)) as [[i t0]|]; simpl; [|done].
  intros [= <-] Hs Hlt.
  destruct (decide (Transaction.status t0 <> Active)); [done|]. simpl.
  destruct (decide (_ <= _)); [|done]. unfold now in Hlt. lia.
Qed.



(** C10. Called without a rate, [calculateFine] charges 0.50 per day:
    for an [Active] transaction overdue by [d] started days, [d >= 1],
    it returns [d * 0.50]. *)
Theorem calculateFine_default_rate env transactionId w t d :
  let now := clock env (clock_reads w) in
  find_transaction transactionId (transactions w) = Some t ->
  Transaction.status t = Active ->
  1 <= d ->
  (d - 1) * JSDate.msPerDay < now - Transaction.dueDate t
    <= d * JSDate.msPerDay ->
  fst (calculateFine env transactionId None w)
  = Normal (inject_Z d * (1 # 2))%Q.
Proof.
  intros now Hf Hs Hd Hover.
  assert (0 < JSDate.msPerDay) as Hpos by reflexivity.
  assert (Transaction.dueDate t < now) as Hlt by nia.
  rewrite (calculateFine_overdue _ _ _ _ t) by done.
  fold now. rewrite (ceilDays_unique _ d) by done.
  simpl default. by rewrite mul_int_half.
Qed.

(** ** Overdue loans *)

Lemma overdue_at_spec now t :
  overdue_at now t = true <-> overdue_spec now t.
Proof.
  unfold overdue_at, overdue_spec.
  destruct (decide (Transaction.status t <> Active)) as [Hs|Hs].
  - split; [discriminate|]. by intros [? _].
  - rewrite bool_decide_eq_true.
    destruct (Transaction.status t); [tauto|by destruct Hs].
Qed.

Lemma filter_overdue_at now l :
  List.filter (overdue_at now) l = filter (overdue_spec now) l.
Proof.
  induction l as [|t l IH]; [done|]. simpl. rewrite filter_cons, IH.
  destruct (decide (overdue_spec now t)) as [H|H].
  - apply overdue_at_spec in H. by rewrite H.
  - destruct (overdue_at now t) eqn:E; [|done].
    by apply overdue_at_spec in E.
Qed.

(** C8. [getOverdueBooks] returns, in ledger order, exactly the
    transactions that are [Active] and due strictly before the current
    instant; one due at that very instant is left out, and so is every
    [Returned] one. *)
Theorem getOverdueBooks_spec env w :
  let now := clock env (clock_reads w) in
  exists r,
    fst (getOverdueBooks env w) = Normal r /\
    r = filter (overdue_spec now) (transactions w) /\
    (forall t, t ∈ r <->
       t ∈ transactions w /\
       Transaction.status t = Active /\ Transaction.dueDate t < now) /\
    (forall t, Transaction.dueDate t = now -> t ∉ r) /\
    (forall t, Transaction.status t = Returned -> t ∉ r).
Proof.
  intros now. eexists. split; [reflexivity|]. simpl. fold now.
  rewrite filter_overdue_at. split; [done|].
  split; [|split].
  - intros t. rewrite list_elem_of_filter. unfold overdue_spec. tauto.
  - intros t Hd [[_ Hlt] _]%list_elem_of_filter. lia.
  - intros t Hs [[Ha _] _]%list_elem_of_filter. congruence.
Qed.

(** ** Registration *)

Lemma text_falsy v : JS.truthy v = false -> JS.text v = EmptyString.
Proof. by destruct v as [[|c s]|]. Qed.

Lemma string_length_0 s : (String.length s =? 0)%nat = true <-> s = EmptyString.
Proof. destruct s; simpl; split; done. Qed.

Lemma missing_name_check (v : option string) :
  negb (JS.truthy v) || (String.length (JS.trim (JS.text v)) =? 0)%nat = true
  <-> JS.trim (JS.text v) = EmptyString.
Proof.
  destruct (JS.truthy v) eqn:Hv; simpl.
  - apply string_length_0.
  - by rewrite (text_falsy _ Hv).
Qed.

Lemma toLowerCase_empty s :
  JS.toLowerCase s = EmptyString -> s = EmptyString.
Proof. by destruct s. Qed.

Lemma email_taken_find d l :
  email_taken d l <->
  JS.truthy (BorrowerData.email d) = true /\
  exists b, list_find (same_email (JS.text (BorrowerData.email d))) l = Some b.
Proof.
  unfold email_taken. split.
  - intros (e & b & He & Hin & Hsame). rewrite He. simpl.
    destruct e as [|c e].
    + destruct Hsame as [Hne Hlow]. simpl in Hlow.
      by apply toLowerCase_empty in Hlow.
    + split; [done|].
      by destruct (list_find_elem_of (same_email (String c e)) l b) as [x ->];
        eauto.
  - intros [Ht [[i b] Hf]].
    destruct (BorrowerData.email d) as [e|]; [|done].
    apply list_find_Some in Hf as (Hi & Hsame & _).
    exists e, b. split; [done|].
    split; [by eapply list_elem_of_lookup_2|done].
Qed.

Lemma email_taken_or_free d l : email_taken d l \/ ~ email_taken d l.
Proof.
  rewrite email_taken_find.
  destruct (JS.truthy (BorrowerData.email d)); [|right; by intros [? _]].
  destruct (list_find _ l) as [b|]; [left; eauto|].
  right. by intros [_ [b ?]].
Qed.

Lemma registerBorrower_missing_name env d w :
  JS.trim (JS.text (BorrowerData.name d)) = EmptyString ->
  registerBorrower env d w = (Normal (Failure MissingName), w).
Proof.
  intros H%missing_name_check. unfold registerBorrower. by rewrite H.
Qed.

Lemma registerBorrower_duplicate env d w :
  JS.trim (JS.text (BorrowerData.name d)) <> EmptyString ->
  email_taken d (borrowers w) ->
  registerBorrower env d w = (Normal (Failure DuplicateEmail), w).
Proof.
  intros Hn [Ht [b Hf]]%email_taken_find. unfold registerBorrower.
  destruct (negb _ || _) eqn:Hm; [by apply missing_name_check in Hm|].
  run_monad. by rewrite Ht, Hf.
Qed.

Lemma registerBorrower_success env d w :
  JS.trim (JS.text (BorrowerData.name d)) <> EmptyString ->
  ~ email_taken d (borrowers w) ->
  let b :=
    {| Borrower.id := JS.toString (clock env (clock_reads w));
       Borrower.name := Validator.sanitize (JS.text (BorrowerData.name d));
       Borrower.email := sanitize_optional (BorrowerData.email d);
       Borrower.phone := sanitize_optional (BorrowerData.phone d);
       Borrower.address := sanitize_optional (BorrowerData.address d);
       Borrower.createdAt := clock env (S (clock_reads w)) |} in
  registerBorrower env d w
  = (Normal (Success b),
     {| borrowers := borrowers w ++ [b];
        transactions := transactions w;
        stored_borrowers := Some (borrowers w ++ [b]);
        stored_transactions := stored_transactions w;
        clock_reads := S (S (clock_reads w)) |}).
Proof.
  intros Hn Hfree. unfold registerBorrower.
  destruct (negb _ || _) eqn:Hm; [by apply missing_name_check in Hm|].
  run_monad.
  destruct (JS.truthy (BorrowerData.email d)) eqn:Ht; [|done].
  destruct (list_find _ (borrowers w)) as [x|] eqn:Hf; [|done].
  destruct Hfree. apply email_taken_find. eauto.
Qed.


(** The same address in another letter case is a duplicate. *)
Example letter_case_duplicate :
  registerBorrower Sample.utc_env Sample.ada_again Sample.registered
  = (Normal (Failure DuplicateEmail), Sample.registered).
Proof. reflexivity. Qed.

(** * The theorems at work on the sample loan *)

Lemma sample_checked_out_reachable :
  reachable Sample.utc_env Sample.checked_out.
Proof.
  exists Sample.fresh,
    [CallRegisterBorrower Sample.ada;
     CallCheckoutBook "ITEM1" "1704067200000" (Some 14)].
  split; reflexivity.
Defined.

Lemma sample_returned_reachable :
  reachable Sample.utc_env Sample.returned.
Proof.
  exists Sample.fresh,
    [CallRegisterBorrower Sample.ada;
     CallCheckoutBook "ITEM1" "1704067200000" (Some 14);
     CallReturnBook "1704067200003" (Some (1 # 2)%Q)].
  split; reflexivity.
Defined.

Lemma single_active_loan_invariant_witness :
  (length (active_loans "ITEM1" (transactions Sample.checked_out)) <= 1)%nat /\
  exists e,
    checkoutBook Sample.utc_env "ITEM1" "1704067200000" None Sample.checked_out
    = (Normal (Failure e), Sample.checked_out).
Proof.
  destruct (single_active_loan_invariant Sample.utc_env) as (Hinv & Hrefuse & _).
  split.
  - apply Hinv. exact sample_checked_out_reachable.
  - apply (Hrefuse _ _ _ _ Sample.loan).
    + apply (list_elem_of_lookup_2 _ 0%nat). reflexivity.
    + reflexivity.
    + reflexivity.
Defined.

Lemma checkout_due_date_witness :
  Transaction.checkoutDate Sample.loan = 1704067200002 /\
  Transaction.dueDate Sample.loan = 1704067200002 + 14 * JSDate.msPerDay.
Proof.
  apply (proj1 (checkout_due_date Sample.utc_env "ITEM1" "1704067200000"
                  Sample.registered) 14 Sample.loan Sample.checked_out).
  - lia.
  - reflexivity.
  - vm_compute. reflexivity.
Defined.

Lemma failed_call_leaves_ledger_witness :
  transactions Sample.checked_out = transactions Sample.checked_out /\
  Sample.checked_out = Sample.checked_out.
Proof.
  apply (failed_call_leaves_ledger Sample.utc_env Sample.checked_out
           Sample.checked_out ItemAlreadyCheckedOut).
  left. exists "ITEM1", "1704067200000", None. vm_compute. reflexivity.
Defined.

Lemma returnBook_outcomes_witness :
  exists i t',
    fst (returnBook Sample.utc_env "1704067200003" (Some (1 # 2)%Q)
           Sample.checked_out) = Normal (Success t') /\
    transactions (snd (returnBook Sample.utc_env "1704067200003"
                         (Some (1 # 2)%Q) Sample.checked_out))
    = <[i := t']> (transactions Sample.checked_out) /\
    Transaction.returnDate t' = Some 1704067200005 /\
    Transaction.status t' = Returned /\
    Transaction.fineAmount t' = (1 # 2)%Q.
Proof.
  destruct (returnBook_outcomes Sample.utc_env "1704067200003"
              (Some (1 # 2)%Q) Sample.checked_out) as (_ & _ & Hok).
  destruct (Hok Sample.loan) as (i & t' & _ & Hr & Hl & _ & Hd & Hs & Hf & _).
  - vm_compute. reflexivity.
  - reflexivity.
  - exists i, t'. repeat split; assumption.
Defined.


Lemma returned_is_terminal_witness :
  let w' := run Sample.utc_env [CallCalculateFine "1704067200003" None]
              Sample.returned in
  transactions w' !! 0%nat = Some Sample.loan_returned /\
  returnBook Sample.utc_env "1704067200003" (Some (3 # 1)%Q) w'
  = (Normal (Failure TransactionNotActive), w').
Proof.
  apply (returned_is_terminal Sample.utc_env Sample.returned 0
           Sample.loan_returned [CallCalculateFine "1704067200003" None]
           (Some (3 # 1)%Q)).
  - exact sample_returned_reachable.
  - vm_compute. reflexivity.
  - reflexivity.
Defined.

Lemma fine_amount_lifecycle_witness :
  Transaction.fineAmount Sample.loan = 0%Q /\
  (0 <= Transaction.fineAmount Sample.loan_returned)%Q.
Proof.
  destruct (fine_amount_lifecycle Sample.utc_env) as (Hzero & _ & _ & Hpos).
  split.
  - apply (Hzero Sample.checked_out).
    + exact sample_checked_out_reachable.
    + apply (list_elem_of_lookup_2 _ 0%nat). reflexivity.
    + reflexivity.
  - apply (Hpos Sample.fresh
             [CallRegisterBorrower Sample.ada;
              CallCheckoutBook "ITEM1" "1704067200000" (Some 14);
              CallReturnBook "1704067200003" (Some (1 # 2)%Q)]).
    + reflexivity.
    + repeat constructor. simpl. discriminate.
    + apply (list_elem_of_lookup_2 _ 0%nat). vm_compute. reflexivity.
Defined.

Lemma getOverdueBooks_spec_witness :
  exists r,
    fst (getOverdueBooks Sample.late_env Sample.checked_out) = Normal r /\
    Sample.loan ∈ r.
Proof.
  destruct (getOverdueBooks_spec Sample.late_env Sample.checked_out)
    as (r & Hr & _ & Hiff & _).
  exists r. split; [exact Hr|].
  apply Hiff. split; [|split].
  - apply (list_elem_of_lookup_2 _ 0%nat). reflexivity.
  - reflexivity.
  - reflexivity.
Defined.

Lemma calculateFine_default_rate_witness :
  fst (calculateFine Sample.late_env "1704067200003" None Sample.checked_out)
  = Normal (inject_Z 1 * (1 # 2))%Q.
Proof.
  apply (calculateFine_default_rate Sample.late_env "1704067200003"
           Sample.checked_out Sample.loan 1).
  - vm_compute. reflexivity.
  - reflexivity.
  - lia.
  - vm_compute. split; [reflexivity|discriminate].
Defined.


(** * Beyond the lifecycle claims *)

(** ** The three ways a call can leave the world *)

Lemma checkoutBook_cases env bookId borrowerId loanDays w :
  (exists e, checkoutBook env bookId borrowerId loanDays w
             = (Normal (Failure e), w)) \/
  (exists t,
     Transaction.bookId t = bookId /\
     Transaction.borrowerId t = borrowerId /\
     Transaction.id t = JS.toString (clock env (S (clock_reads w))) /\
     Transaction.checkoutDate t = clock env (clock_reads w) /\
     Transaction.createdAt t = clock env (S (S (clock_reads w))) /\
     Transaction.returnDate t = None /\
     Transaction.status t = Active /\
     list_find (active_for bookId) (transactions w) = None /\
     checkoutBook env bookId borrowerId loanDays w
     = (Normal (Success t),
        {| borrowers := borrowers w;
           transactions := transactions w ++ [t];
           stored_borrowers := stored_borrowers w;
           stored_transactions := Some (transactions w ++ [t]);
           clock_reads := S (S (S (clock_reads w))) |})) \/
  (checkoutBook env bookId borrowerId loanDays w
   = (Throw RangeError,
      {| borrowers := borrowers w;
         transactions := transactions w;
         stored_borrowers := stored_borrowers w;
         stored_transactions := stored_transactions w;
         clock_reads := S (S (clock_reads w)) |})).
Proof.
  destruct (list_find (fun b => Borrower.id b = borrowerId) (borrowers w))
    as [b|] eqn:Hb.
  2: { left. eexists. by apply checkoutBook_unknown_borrower. }
  destruct (list_find (active_for bookId) (transactions w)) as [a|] eqn:Ha.
  { left. eexists. by eapply checkoutBook_already_out. }
  destruct (JSDate.setDate_add (LocalTZA env) (clock env (clock_reads w))
              (loanDays_or_default loanDays)) as [due|] eqn:Hd.
  - right. left. eexists. erewrite checkoutBook_success by done.
    by repeat split.
  - right. right. unfold checkoutBook. run_monad.
    rewrite Hb, Ha. simpl. by rewrite Hd.
Qed.

Lemma returnBook_cases env transactionId fineAmount w :
  (exists e, returnBook env transactionId fineAmount w
             = (Normal (Failure e), w)) \/
  (exists i t,
     list_find (fun t' => Transaction.id t' = transactionId) (transactions w)
     = Some (i, t) /\
     Transaction.status t = Active /\
     let t' := mark_returned t (clock env (clock_reads w))
                             (default 0%Q fineAmount) in
     returnBook env transactionId fineAmount w
     = (Normal (Success t'),
        {| borrowers := borrowers w;
           transactions := <[i := t']> (transactions w);
           stored_borrowers := stored_borrowers w;
           stored_transactions := Some (<[i := t']> (transactions w));
           clock_reads := S (clock_reads w) |})).
Proof.
  destruct (list_find (fun t => Transaction.id t = transactionId)
              (transactions w)) as [[i t]|] eqn:Hf.
  2: { left. eexists. by apply returnBook_not_found. }
  destruct (decide (Transaction.status t = Active)) as [Hs|Hs].
  - right. exists i, t. split; [done|]. split; [done|].
    by apply returnBook_success.
  - left. eexists. by eapply returnBook_not_active.
Qed.

Lemma registerBorrower_cases env d w :
  (exists e, registerBorrower env d w = (Normal (Failure e), w)) \/
  (exists b,
     JS.trim (JS.text (BorrowerData.name d)) <> EmptyString /\
     ~ email_taken d (borrowers w) /\
     Borrower.id b = JS.toString (clock env (clock_reads w)) /\
     Borrower.name b = Validator.sanitize (JS.text (BorrowerData.name d)) /\
     Borrower.email b = sanitize_optional (BorrowerData.email d) /\
     Borrower.phone b = sanitize_optional (BorrowerData.phone d) /\
     Borrower.address b = sanitize_optional (BorrowerData.address d) /\
     registerBorrower env d w
     = (Normal (Success b),
        {| borrowers := borrowers w ++ [b];
           transactions := transactions w;
           stored_borrowers := Some (borrowers w ++ [b]);
           stored_transactions := stored_transactions w;
           clock_reads := S (S (clock_reads w)) |})).
Proof.
  destruct (decide (JS.trim (JS.text (BorrowerData.name d)) = EmptyString))
    as [Hn|Hn].
  { left. eexists. by apply registerBorrower_missing_name. }
  destruct (email_taken_or_free d (borrowers w)) as [Hd|Hd].
  { left. eexists. by apply registerBorrower_duplicate. }
  right. eexists. rewrite registerBorrower_success by done.
  by repeat split.
Qed.

Lemma calculateFine_world env transactionId dailyFine w :
  same_data w (snd (calculateFine env transactionId dailyFine w)) /\
  (clock_reads w <= clock_reads (snd (calculateFine env transactionId dailyFine w)))%nat.
Proof.
  split; [apply calculateFine_same_data|].
  unfold calculateFine. run_monad.
  destruct (list_find _ (transactions w)) as [[i t]|]; simpl; [|lia].
  destruct (decide (Transaction.status t <> Active)); simpl; [lia|].
  destruct (decide (_ <= _)); simpl; lia.
Qed.

(** A call that is neither a registration, a checkout nor a return
    leaves the arrays and the store as they are. *)
Lemma exec_query_same_data env c w :
  match c with
  | CallRegisterBorrower _ | CallCheckoutBook _ _ _ | CallReturnBook _ _ => True
  | _ => same_data w (exec env c w)
  end.
Proof.
  destruct c; cbn [exec];
    first [ exact I
          | apply getOverdueBooks_same_data
          | apply calculateFine_same_data
          | apply same_data_refl ].
Qed.

Lemma exec_clock_reads env c w :
  (clock_reads w <= clock_reads (exec env c w))%nat.
Proof.
  destruct c; cbn [exec]; try (simpl; lia).
  - destruct (registerBorrower_cases env borrowerData w)
      as [[e ->]|(b & _ & _ & _ & _ & _ & _ & _ & ->)]; simpl; lia.
  - destruct (checkoutBook_cases env bookId borrowerId loanDays w)
      as [[e ->]|[(t & _ & _ & _ & _ & _ & _ & _ & _ & ->)| ->]]; simpl; lia.
  - destruct (returnBook_cases env transactionId fineAmount w)
      as [[e ->]|(i & t & _ & _ & ->)]; simpl; lia.
  - apply calculateFine_world.
Qed.

(** ** Reloading from the store *)

Lemma same_data_mirrored w w' : same_data w w' -> mirrored w -> mirrored w'.
Proof.
  intros (Hb & Ht & Hsb & Hst) [H1 H2]. unfold mirrored in *.
  simpl in *. by rewrite Hb, Ht, Hsb, Hst.
Qed.

Lemma exec_mirrored env c w : mirrored w -> mirrored (exec env c w).
Proof.
  intros Hm.
  pose proof (exec_query_same_data env c w) as Hq.
  destruct c; try (by eapply same_data_mirrored); cbn [exec]; clear Hq.
  - destruct (registerBorrower_cases env borrowerData w)
      as [[e ->]|(b & _ & _ & _ & _ & _ & _ & _ & ->)]; [done|].
    destruct Hm as [_ Ht]. by split.
  - destruct (checkoutBook_cases env bookId borrowerId loanDays w)
      as [[e ->]|[(t & _ & _ & _ & _ & _ & _ & _ & _ & ->)| ->]];
      [done| |done].
    destruct Hm as [Hb _]. by split.
  - destruct (returnBook_cases env transactionId fineAmount w)
      as [[e ->]|(i & t & _ & _ & ->)]; [done|].
    destruct Hm as [Hb _]. by split.
Qed.

(** X1. Whatever calls were made since the engine was constructed,
    constructing a new engine from what [localStorage] then holds gives
    the same borrowers and the same transactions. *)
Theorem reload_restores_arrays env ls_borrowers ls_transactions cs :
  let w := run env cs (constructor ls_borrowers ls_transactions) in
  borrowers (constructor (stored_borrowers w) (stored_transactions w))
  = borrowers w /\
  transactions (constructor (stored_borrowers w) (stored_transactions w))
  = transactions w.
Proof.
  intros w. subst w. induction cs as [|c cs IH] using rev_ind.
  - by split.
  - rewrite run_snoc. by apply exec_mirrored.
Qed.


(** ** The ledger only grows *)

Lemma same_loan_refl t : same_loan t t.
Proof. by repeat split. Qed.

Lemma ledger_step_same_loan c l l' i t :
  ledger_step c l l' ->
  l !! i = Some t ->
  exists t', l' !! i = Some t' /\ same_loan t t' /\
             (Transaction.status t' = Active -> t' = t).
Proof.
  intros Hstep Hi.
  destruct Hstep as [c l| bookId borrowerId loanDays l t0 _ _ _ _
                    |transactionId fineAmount l j t0 now Hfind Hs0].
  - exists t. by split; [|split; [apply same_loan_refl|]].
  - exists t. split; [by apply lookup_app_l_Some|].
    by split; [apply same_loan_refl|].
  - apply list_find_Some in Hfind as (Hj & _).
    destruct (decide (i = j)) as [->|Hne].
    + assert (t0 = t) as -> by congruence.
      eexists. split.
      * apply list_lookup_insert_eq. by eapply lookup_lt_Some.
      * split; [by repeat split|]. discriminate.
    + exists t. split; [by rewrite list_lookup_insert_ne|].
      by split; [apply same_loan_refl|].
Qed.

Lemma ledger_step_length c l l' :
  ledger_step c l l' -> (length l <= length l')%nat.
Proof.
  destruct 1; rewrite ?length_app, ?length_insert; simpl; lia.
Qed.

Lemma same_loan_trans t1 t2 t3 :
  same_loan t1 t2 -> same_loan t2 t3 -> same_loan t1 t3.
Proof.
  intros (? & ? & ? & ? & ? & ?) (? & ? & ? & ? & ? & ?).
  repeat split; congruence.
Qed.

Lemma run_same_loan env cs w i t :
  transactions w !! i = Some t ->
  exists t', transactions (run env cs w) !! i = Some t' /\ same_loan t t' /\
             (Transaction.status t' = Active -> t' = t).
Proof.
  intros Hi. induction cs as [|c cs IH] using rev_ind.
  - exists t. by split; [|split; [apply same_loan_refl|]].
  - rewrite run_snoc. destruct IH as (t1 & Hi1 & Hsame & Hact).
    pose proof (exec_ledger_step env c (run env cs w)) as Hstep.
    destruct (ledger_step_same_loan _ _ _ _ _ Hstep Hi1)
      as (t2 & Hi2 & Hsame2 & Hact2).
    exists t2. split; [done|]. split; [by eapply same_loan_trans|].
    intros Hs. specialize (Hact2 Hs). subst t2. by apply Hact.
Qed.

Lemma run_length env cs w :
  (length (transactions w) <= length (transactions (run env cs w)))%nat.
Proof.
  induction cs as [|c cs IH] using rev_ind; [done|].
  rewrite run_snoc. etrans; [exact IH|].
  eapply ledger_step_length, exec_ledger_step.
Qed.

(** X2. No call removes a transaction or moves it to another index, no
    call changes its identifier, book, borrower, checkout date, due date
    or creation date, and a transaction that is [Active] after some calls
    is exactly as it was before them. *)
Theorem ledger_only_grows env cs w i t :
  transactions w !! i = Some t ->
  (length (transactions w) <= length (transactions (run env cs w)))%nat /\
  exists t',
    transactions (run env cs w) !! i = Some t' /\
    Transaction.id t' = Transaction.id t /\
    Transaction.bookId t' = Transaction.bookId t /\
    Transaction.borrowerId t' = Transaction.borrowerId t /\
    Transaction.checkoutDate t' = Transaction.checkoutDate t /\
    Transaction.dueDate t' = Transaction.dueDate t /\
    Transaction.createdAt t' = Transaction.createdAt t /\
    (Transaction.status t' = Active -> t' = t).
Proof.
  intros Hi. split; [apply run_length|].
  destruct (run_same_loan env cs w i t Hi)
    as (t' & Hi' & (? & ? & ? & ? & ? & ?) & Hact).
  exists t'. by repeat split.
Qed.

(** ** Checking out, looking up, returning *)

Lemma getBorrower_None borrowerId w :
  fst (getBorrower borrowerId w) = Normal None <->
  list_find (fun b => Borrower.id b = borrowerId) (borrowers w) = None.
Proof.
  unfold getBorrower. run_monad.
  destruct (list_find _ (borrowers w)) as [[i b]|]; simpl; split; congruence.
Qed.

Lemma getActiveTransactions_nil bookId w :
  fst (getActiveTransactions bookId w) = Normal [] <->
  list_find (active_for bookId) (transactions w) = None.
Proof.
  unfold getActiveTransactions. run_monad. split.
  - intros [= H]. apply list_find_None, Forall_forall. intros t Hin Hact.
    assert (t ∈ filter (active_for bookId) (transactions w)) as Hf
      by (by apply list_elem_of_filter).
    rewrite H in Hf. by apply not_elem_of_nil in Hf.
  - intros H. f_equal. by apply active_loans_none.
Qed.

Lemma checkoutBook_not_failure env bookId borrowerId loanDays w b e :
  list_find (fun b => Borrower.id b = borrowerId) (borrowers w) = Some b ->
  list_find (active_for bookId) (transactions w) = None ->
  fst (checkoutBook env bookId borrowerId loanDays w) <> Normal (Failure e).
Proof.
  intros Hb Ha.
  destruct (JSDate.setDate_add (LocalTZA env) (clock env (clock_reads w))
              (loanDays_or_default loanDays)) as [due|] eqn:Hd.
  - by erewrite checkoutBook_success.
  - by edestruct checkoutBook_invalid_due as [-> _].
Qed.

(** X3. [checkoutBook] fails with "Borrower not found" exactly when
    [getBorrower] returns null for the borrower, and with "already
    checked out" exactly when [getBorrower] finds the borrower and
    [getActiveTransactions] returns a non-empty array for the book. *)
Theorem checkoutBook_failures_by_queries env bookId borrowerId loanDays w :
  let out := fst (checkoutBook env bookId borrowerId loanDays w) in
  (out = Normal (Failure BorrowerNotFound) <->
   fst (getBorrower borrowerId w) = Normal None) /\
  (out = Normal (Failure ItemAlreadyCheckedOut) <->
   fst (getBorrower borrowerId w) <> Normal None /\
   fst (getActiveTransactions bookId w) <> Normal []).
Proof.
  intros out. subst out.
  rewrite getBorrower_None, getActiveTransactions_nil.
  destruct (list_find (fun b => Borrower.id b = borrowerId) (borrowers w))
    as [b|] eqn:Hb.
  2: { rewrite checkoutBook_unknown_borrower by done. simpl.
       split; [done|]. split; [discriminate|]. by intros [? _]. }
  destruct (list_find (active_for bookId) (transactions w)) as [a|] eqn:Ha.
  { erewrite checkoutBook_already_out by done. simpl.
    split; [split; discriminate|]. done. }
  destruct (JSDate.setDate_add (LocalTZA env) (clock env (clock_reads w))
              (loanDays_or_default loanDays)) as [due|] eqn:Hd.
  - erewrite checkoutBook_success by done. simpl.
    split; [split; [discriminate|done]|].
    split; [discriminate|]. by intros [_ ?].
  - edestruct checkoutBook_invalid_due as [-> _]; [done..|].
    split; [split; [discriminate|done]|].
    split; [discriminate|]. by intros [_ ?].
Qed.

Lemma checkoutBook_success_known env bookId borrowerId loanDays w t w' :
  checkoutBook env bookId borrowerId loanDays w = (Normal (Success t), w') ->
  borrowers w' = borrowers w /\
  transactions w' = transactions w ++ [t] /\
  Transaction.bookId t = bookId /\
  Transaction.status t = Active /\
  list_find (active_for bookId) (transactions w) = None /\
  exists b, list_find (fun b => Borrower.id b = borrowerId) (borrowers w)
            = Some b.
Proof.
  intros H.
  destruct (list_find (fun b => Borrower.id b = borrowerId) (borrowers w))
    as [b|] eqn:Hb.
  2: { by rewrite checkoutBook_unknown_borrower in H. }
  destruct (checkoutBook_cases env bookId borrowerId loanDays w)
    as [[e He]|[(t0 & Hbk & _ & _ & _ & _ & _ & Hs & Hnone & He)|He]];
    rewrite He in H; [done| |done].
  injection H as <- <-. simpl. repeat split; eauto.
Qed.

(** X4. Right after a successful [checkoutBook], [getActiveTransactions]
    for the book returns the new transaction and nothing else, and a
    further [checkoutBook] of the book by the same borrower fails with
    "already checked out", whatever period it asks for. *)
Theorem checkout_then_checkout_fails env bookId borrowerId loanDays w t w' :
  checkoutBook env bookId borrowerId loanDays w = (Normal (Success t), w') ->
  fst (getActiveTransactions bookId w') = Normal [t] /\
  forall loanDays',
    checkoutBook env bookId borrowerId loanDays' w'
    = (Normal (Failure ItemAlreadyCheckedOut), w').
Proof.
  intros H.
  apply checkoutBook_success_known in H
    as (Hb & Ht & Hbook & Hs & Hnone & b & Hfind).
  assert (filter (active_for bookId) (transactions w') = [t]) as Hact.
  { rewrite Ht. fold (active_loans bookId (transactions w ++ [t])).
    rewrite active_loans_snoc, (active_loans_none _ _ Hnone).
    by rewrite decide_True. }
  split.
  - unfold getActiveTransactions. run_monad. by rewrite Hact.
  - intros loanDays'.
    destruct (list_find (active_for bookId) (transactions w')) as [a|] eqn:Ha.
    + eapply checkoutBook_already_out; [|done]. by rewrite Hb.
    + apply active_loans_none in Ha. unfold active_loans in Ha.
      by rewrite Hact in Ha.
Qed.

Lemma active_loans_returned_one bookId l i t now fine :
  l !! i = Some t -> active_for bookId t ->
  S (length (active_loans bookId (<[i := mark_returned t now fine]> l)))
  = length (active_loans bookId l).
Proof.
  unfold active_loans. revert i.
  induction l as [|x l IH]; intros [|i] Hi Hact; simpl in *; try done.
  - injection Hi as ->.
    rewrite filter_cons_False by (intros [_ Hs]; discriminate Hs).
    by rewrite filter_cons_True.
  - rewrite !filter_cons.
    destruct (decide (active_for bookId x)); simpl; by rewrite IH.
Qed.

(** X5. In a reachable state, once [returnBook] succeeds the book of
    the returned transaction has no [Active] transaction left:
    [getActiveTransactions] returns an empty array for it and
    [checkoutBook] by a borrower of the directory no longer fails. *)
Theorem return_frees_book env w transactionId fineAmount t' w' :
  reachable env w ->
  returnBook env transactionId fineAmount w = (Normal (Success t'), w') ->
  fst (getActiveTransactions (Transaction.bookId t') w') = Normal [] /\
  forall borrowerId loanDays e,
    fst (getBorrower borrowerId w') <> Normal None ->
    fst (checkoutBook env (Transaction.bookId t') borrowerId loanDays w')
    <> Normal (Failure e).
Proof.
  intros Hw H.
  destruct (returnBook_cases env transactionId fineAmount w)
    as [[e He]|(i & t & Hfind & Hs & He)]; rewrite He in H; [done|].
  injection H as <- <-.
  apply list_find_Some in Hfind as (Hi & _).
  pose proof (reachable_single_active env w Hw (Transaction.bookId t)) as Hone.
  pose proof (active_loans_returned_one (Transaction.bookId t) _ i t
                (clock env (clock_reads w)) (default 0%Q fineAmount) Hi
                (conj eq_refl Hs)) as Hless.
  set (w' := {| borrowers := borrowers w |}) in *.
  assert (active_loans (Transaction.bookId t) (transactions w') = []) as Hnil.
  { apply length_zero_iff_nil. simpl. lia. }
  assert (fst (getActiveTransactions (Transaction.bookId t) w') = Normal [])
    as Hq by (unfold getActiveTransactions; run_monad; f_equal; exact Hnil).
  split; [exact Hq|].
  intros borrowerId loanDays e Hknown.
  destruct (list_find (fun b => Borrower.id b = borrowerId) (borrowers w'))
    as [b|] eqn:Hb; [|by apply getBorrower_None in Hb].
  eapply checkoutBook_not_failure; [done|].
  by apply getActiveTransactions_nil.
Qed.

(** ** Clocks: dates in order, identifiers distinct *)

Lemma exec_ledger_cases env c w :
  let n := clock_reads w in
  transactions (exec env c w) = transactions w \/
  (exists t,
     transactions (exec env c w) = transactions w ++ [t] /\
     Transaction.id t = JS.toString (clock env (S n)) /\
     Transaction.checkoutDate t = clock env n /\
     Transaction.createdAt t = clock env (S (S n)) /\
     Transaction.returnDate t = None /\
     clock_reads (exec env c w) = S (S (S n))) \/
  (exists i t fine,
     transactions w !! i = Some t /\
     transactions (exec env c w)
     = <[i := mark_returned t (clock env n) fine]> (transactions w) /\
     clock_reads (exec env c w) = S n).
Proof.
  intros n.
  pose proof (exec_query_same_data env c w) as Hq.
  destruct c; try (left; by destruct Hq as (_ & -> & _)); cbn [exec]; clear Hq.
  - left. apply registerBorrower_transactions.
  - destruct (checkoutBook_cases env bookId borrowerId loanDays w)
      as [[e ->]|[(t & _ & _ & Hid & Hco & Hcr & Hrd & _ & _ & ->)| ->]];
      [by left| |by left].
    right. left. exists t. by repeat split.
  - destruct (returnBook_cases env transactionId fineAmount w)
      as [[e ->]|(i & t & Hfind & _ & ->)]; [by left|].
    right. right. apply list_find_Some in Hfind as (Hi & _).
    by exists i, t, (default 0%Q fineAmount).
Qed.

Lemma exec_well_dated env c w :
  monotone_clock env -> well_dated env w -> well_dated env (exec env c w).
Proof.
  intros Hmono Hinv. unfold well_dated in *.
  pose proof (exec_clock_reads env c w) as Hreads.
  assert (Forall (fun t =>
            (exists k, (k < clock_reads (exec env c w))%nat /\
                       Transaction.checkoutDate t = clock env k) /\
            Transaction.checkoutDate t <= Transaction.createdAt t /\
            (forall r, Transaction.returnDate t = Some r ->
                       Transaction.checkoutDate t <= r))
           (transactions w)) as Hold.
  { eapply Forall_impl; [exact Hinv|]. intros t ((k & Hk & Hd) & H2 & H3).
    split; [|done]. exists k. split; [lia|done]. }
  destruct (exec_ledger_cases env c w)
    as [->|[(t & -> & _ & Hco & Hcr & Hrd & Hn)|(i & t & f & Hi & -> & Hn)]].
  - done.
  - apply Forall_app. split; [done|]. constructor; [|done].
    split; [exists (clock_reads w); split; [lia|done]|].
    split; [rewrite Hco, Hcr; apply Hmono; lia|].
    intros r. by rewrite Hrd.
  - apply Forall_insert; [done|]. simpl.
    rewrite Forall_forall in Hinv.
    destruct (Hinv t) as ((k & Hk & Hd) & H2 & _);
      [by eapply list_elem_of_lookup_2|].
    split; [exists k; split; [lia|done]|]. split; [done|].
    intros r [= <-]. rewrite Hd. apply Hmono. lia.
Qed.

(** X6. On a host whose clock never goes backwards, every transaction
    of a reachable ledger was created at or after its checkout instant,
    and, if it has a return date, was returned at or after it. *)
Theorem dates_in_order env w t :
  monotone_clock env ->
  reachable env w ->
  t ∈ transactions w ->
  Transaction.checkoutDate t <= Transaction.createdAt t /\
  forall r, Transaction.returnDate t = Some r ->
            Transaction.checkoutDate t <= r.
Proof.
  intros Hmono Hw Hin.
  assert (well_dated env w) as Hinv.
  { clear Hin. induction Hw as [w0 H0|w c _ IH] using reachable_ind.
    - unfold well_dated. rewrite H0. constructor.
    - by apply exec_well_dated. }
  unfold well_dated in Hinv. rewrite Forall_forall in Hinv.
  by destruct (Hinv t Hin) as (_ & ? & ?).
Qed.

Lemma exec_ids_stamped env c w :
  increasing_clock env ->
  ids_stamped env w /\ distinct_ids (transactions w) ->
  ids_stamped env (exec env c w) /\ distinct_ids (transactions (exec env c w)).
Proof.
  intros Hinc [Hst Hnd]. unfold ids_stamped, distinct_ids in *.
  pose proof (exec_clock_reads env c w) as Hreads.
  assert (Forall (fun s => exists k, (k < clock_reads (exec env c w))%nat /\
                                     s = JS.toString (clock env k))
                 (Transaction.id <$> transactions w)) as Hold.
  { eapply Forall_impl; [exact Hst|]. intros s (k & Hk & ->).
    exists k. split; [lia|done]. }
  destruct (exec_ledger_cases env c w)
    as [->|[(t & -> & Hid & _ & _ & _ & Hn)|(i & t & f & Hi & -> & Hn)]].
  - done.
  - rewrite fmap_app. simpl. split.
    + apply Forall_app. split; [done|]. constructor; [|done].
      exists (S (clock_reads w)). split; [lia|done].
    + apply NoDup_app. split; [done|]. split; [|apply NoDup_singleton].
      intros s Hs ->%list_elem_of_singleton.
      rewrite Forall_forall in Hst. destruct (Hst _ Hs) as (k & Hk & Heq).
      rewrite Hid in Heq. unfold JS.toString in Heq.
      apply (inj pretty) in Heq.
      pose proof (Hinc k (S (clock_reads w)) ltac:(lia)). lia.
  - assert (Transaction.id <$>
              <[i := mark_returned t (clock env (clock_reads w)) f]>
                (transactions w)
            = Transaction.id <$> transactions w) as ->; [|done].
    rewrite list_fmap_insert. apply list_insert_id.
    by rewrite list_lookup_fmap, Hi.
Qed.

Lemma distinct_ids_resolve l t :
  distinct_ids l -> t ∈ l -> find_transaction (Transaction.id t) l = Some t.
Proof.
  intros Hnd (i & Hi)%list_elem_of_lookup_1.
  apply find_transaction_Some. exists i. apply list_find_Some.
  split; [done|]. split; [done|].
  intros j y Hj Hlt Hid.
  assert (j = i); [|lia].
  eapply (NoDup_lookup (Transaction.id <$> l) j i (Transaction.id t)); [done|..].
  - by rewrite list_lookup_fmap, Hj, <- Hid.
  - by rewrite list_lookup_fmap, Hi.
Qed.

(** X7. On a host whose clock readings strictly increase, no two
    transactions of a reachable ledger carry the same identifier, and
    every transaction is the one its identifier resolves to. *)
Theorem increasing_clock_distinct_ids env w :
  increasing_clock env ->
  reachable env w ->
  NoDup (Transaction.id <$> transactions w) /\
  forall t, t ∈ transactions w ->
            find_transaction (Transaction.id t) (transactions w) = Some t.
Proof.
  intros Hinc Hw.
  assert (ids_stamped env w /\ distinct_ids (transactions w)) as [_ Hnd].
  { induction Hw as [w0 H0|w c _ IH] using reachable_ind.
    - unfold ids_stamped, distinct_ids. rewrite H0. simpl.
      split; constructor.
    - by apply exec_ids_stamped. }
  split; [exact Hnd|]. intros t Hin. by apply distinct_ids_resolve.
Qed.

(** ** What [Validator.sanitize] lets through *)

Lemma chars_inj s1 s2 : chars s1 = chars s2 -> s1 = s2.
Proof.
  intros H. rewrite <- (String.string_of_list_ascii_of_string s1),
              <- (String.string_of_list_ascii_of_string s2).
  unfold chars in H. by rewrite H.
Qed.

Lemma chars_empty s : chars s = [] <-> s = EmptyString.
Proof. destruct s; simpl; split; done. Qed.

Lemma chars_rev_app s1 s2 :
  chars (String.rev_app s1 s2) = reverse (chars s1) ++ chars s2.
Proof.
  revert s2. induction s1 as [|c s1 IH]; intros s2; simpl; [done|].
  rewrite IH. simpl. by rewrite reverse_cons, <- app_assoc.
Qed.

Lemma chars_rev s : chars (String.rev s) = reverse (chars s).
Proof. unfold String.rev. rewrite chars_rev_app. simpl. by rewrite app_nil_r. Qed.

Lemma chars_trimStart s : chars (JS.trimStart s) = dropWhiteSpace (chars s).
Proof.
  induction s as [|c s IH]; simpl; [done|].
  by destruct (JS.isWhiteSpace c).
Qed.

Lemma chars_trim s :
  chars (JS.trim s)
  = reverse (dropWhiteSpace (reverse (dropWhiteSpace (chars s)))).
Proof.
  unfold JS.trim. by rewrite chars_rev, chars_trimStart, chars_rev, chars_trimStart.
Qed.

Lemma dropWhiteSpace_elem c l : c ∈ dropWhiteSpace l -> c ∈ l.
Proof.
  induction l as [|x l IH]; simpl; [done|].
  destruct (JS.isWhiteSpace x); [|done].
  intros H. right. by apply IH.
Qed.

Lemma dropWhiteSpace_nil l :
  dropWhiteSpace l = [] <-> Forall (fun c => JS.isWhiteSpace c = true) l.
Proof.
  induction l as [|x l IH]; simpl; [by split; [constructor|]|].
  destruct (JS.isWhiteSpace x) eqn:E.
  - rewrite IH. split; [by constructor|by inversion 1].
  - split; [done|]. inversion 1; congruence.
Qed.

Lemma dropWhiteSpace_fixed c l :
  JS.isWhiteSpace c = false -> dropWhiteSpace (c :: l) = c :: l.
Proof. intros H. simpl. by rewrite H. Qed.

Lemma dropWhiteSpace_head l :
  dropWhiteSpace l = [] \/
  exists c l', dropWhiteSpace l = c :: l' /\ JS.isWhiteSpace c = false.
Proof.
  induction l as [|x l IH]; simpl; [by left|].
  destruct (JS.isWhiteSpace x) eqn:E; [done|]. right. by exists x, l.
Qed.

Lemma dropWhiteSpace_idemp l :
  dropWhiteSpace (dropWhiteSpace l) = dropWhiteSpace l.
Proof.
  destruct (dropWhiteSpace_head l) as [->|(c & l' & -> & Hc)]; [done|].
  by apply dropWhiteSpace_fixed.
Qed.

Lemma dropWhiteSpace_snoc l c :
  JS.isWhiteSpace c = false ->
  dropWhiteSpace (l ++ [c]) = dropWhiteSpace l ++ [c].
Proof.
  intros Hc. induction l as [|x l IH]; simpl; [by rewrite Hc|].
  by destruct (JS.isWhiteSpace x).
Qed.

Lemma trim_idempotent s : JS.trim (JS.trim s) = JS.trim s.
Proof.
  apply chars_inj. rewrite (chars_trim (JS.trim s)), chars_trim.
  destruct (dropWhiteSpace_head (chars s)) as [->|(c & u & -> & Hc)]; [done|].
  rewrite reverse_cons, dropWhiteSpace_snoc, reverse_app by done.
  change (reverse [c] ++ ?l) with (c :: l).
  rewrite dropWhiteSpace_fixed by done.
  rewrite reverse_cons, reverse_involutive.
  rewrite dropWhiteSpace_snoc, dropWhiteSpace_idemp by done.
  by rewrite reverse_app.
Qed.

Lemma trim_empty s :
  JS.trim s = EmptyString <->
  Forall (fun c => JS.isWhiteSpace c = true) (chars s).
Proof.
  rewrite <- chars_empty, chars_trim. split.
  - intros H. apply (f_equal reverse) in H.
    rewrite reverse_involutive in H. change (reverse []) with (@nil ascii) in H.
    apply dropWhiteSpace_nil in H. rewrite Forall_reverse in H.
    apply dropWhiteSpace_nil. rewrite <- dropWhiteSpace_idemp.
    by apply dropWhiteSpace_nil.
  - intros H. apply dropWhiteSpace_nil in H. by rewrite H.
Qed.

Lemma trim_elem c s : c ∈ chars (JS.trim s) -> c ∈ chars s.
Proof.
  rewrite chars_trim, elem_of_reverse. intros H.
  apply dropWhiteSpace_elem in H. rewrite elem_of_reverse in H.
  by apply dropWhiteSpace_elem.
Qed.

Lemma escapeText_elem c s :
  c ∈ chars (Validator.escapeText s) -> c <> "<"%char /\ c <> ">"%char.
Proof.
  induction s as [|x s IH]; simpl; [by intros ?%not_elem_of_nil|].
  destruct (Ascii.eqb_spec x "&") as [->|Hamp]; simpl.
  { rewrite !elem_of_cons. intros [->|[->|[->|[->|[->|H]]]]]; auto; by split. }
  destruct (Ascii.eqb_spec x "<") as [->|Hlt]; simpl.
  { rewrite !elem_of_cons. intros [->|[->|[->|[->|H]]]]; auto; by split. }
  destruct (Ascii.eqb_spec x ">") as [->|Hgt]; simpl.
  { rewrite !elem_of_cons. intros [->|[->|[->|[->|H]]]]; auto; by split. }
  rewrite elem_of_cons. intros [->|H]; auto.
Qed.

Lemma escapeText_blank s :
  Forall (fun c => JS.isWhiteSpace c = true) (chars (Validator.escapeText s)) <->
  Forall (fun c => JS.isWhiteSpace c = true) (chars s).
Proof.
  induction s as [|x s IH]; simpl; [done|].
  destruct (Ascii.eqb_spec x "&") as [->|Hamp]; simpl.
  { split; inversion 1; discriminate. }
  destruct (Ascii.eqb_spec x "<") as [->|Hlt]; simpl.
  { split; inversion 1; discriminate. }
  destruct (Ascii.eqb_spec x ">") as [->|Hgt]; simpl.
  { split; inversion 1; discriminate. }
  rewrite !Forall_cons. by rewrite IH.
Qed.

Lemma sanitize_elem c input :
  c ∈ chars (Validator.sanitize input) -> c <> "<"%char /\ c <> ">"%char.
Proof. intros H. by apply trim_elem, escapeText_elem in H. Qed.

Lemma sanitize_empty input :
  Validator.sanitize input = EmptyString <-> JS.trim input = EmptyString.
Proof. unfold Validator.sanitize. by rewrite !trim_empty, escapeText_blank. Qed.

(** X8. Whatever the input, the string [Validator.sanitize] returns
    contains neither [<] nor [>], has no white space left to trim at
    either end, and is empty exactly when the input is blank. *)
Theorem sanitize_output input :
  (forall c, c ∈ chars (Validator.sanitize input) ->
             c <> "<"%char /\ c <> ">"%char) /\
  JS.trim (Validator.sanitize input) = Validator.sanitize input /\
  (Validator.sanitize input = EmptyString <-> JS.trim input = EmptyString).
Proof.
  split; [|split].
  - intros c. apply sanitize_elem.
  - apply trim_idempotent.
  - apply sanitize_empty.
Qed.

(** ** The borrower directory *)

Lemma exec_borrowers_cases env c w :
  borrowers (exec env c w) = borrowers w \/
  exists d b,
    c = CallRegisterBorrower d /\
    JS.trim (JS.text (BorrowerData.name d)) <> EmptyString /\
    ~ email_taken d (borrowers w) /\
    Borrower.id b = JS.toString (clock env (clock_reads w)) /\
    Borrower.name b = Validator.sanitize (JS.text (BorrowerData.name d)) /\
    Borrower.email b = sanitize_optional (BorrowerData.email d) /\
    Borrower.phone b = sanitize_optional (BorrowerData.phone d) /\
    Borrower.address b = sanitize_optional (BorrowerData.address d) /\
    borrowers (exec env c w) = borrowers w ++ [b].
Proof.
  pose proof (exec_query_same_data env c w) as Hq.
  destruct c; try (left; by destruct Hq as (-> & _)); cbn [exec]; clear Hq.
  - destruct (registerBorrower_cases env borrowerData w)
      as [[e ->]|(b & Hn & Hfree & Hid & Hname & Hem & Hph & Had & ->)];
      [by left|].
    right. exists borrowerData, b. by repeat split.
  - left.
    destruct (checkoutBook_cases env bookId borrowerId loanDays w)
      as [[e ->]|[(t & _ & _ & _ & _ & _ & _ & _ & _ & ->)| ->]]; done.
  - left.
    destruct (returnBook_cases env transactionId fineAmount w)
      as [[e ->]|(i & t & _ & _ & ->)]; done.
Qed.




(** Without the proviso on the clock the identifier need not be new:
    two borrowers registered while the clock stands still carry the
    same one. *)
Example standing_clock_repeats_identifier :
  Borrower.id <$> borrowers Shelf.registered_at_once
  = ["1705363200000"; "1705363200000"].
Proof. reflexivity. Qed.

Lemma sanitize_optional_elem c v :
  c ∈ chars (sanitize_optional v) -> c <> "<"%char /\ c <> ">"%char.
Proof.
  unfold sanitize_optional. destruct (JS.truthy v).
  - apply sanitize_elem.
  - by intros ?%not_elem_of_nil.
Qed.

(** X9. In a directory that started empty, every borrower has a
    non-empty name, and neither the name, the email, the phone nor the
    address of any borrower contains [<] or [>]. *)
Theorem directory_entries_are_sanitized env cs w0 b :
  borrowers w0 = [] ->
  b ∈ borrowers (run env cs w0) ->
  Borrower.name b <> EmptyString /\
  forall c,
    c ∈ chars (Borrower.name b) \/ c ∈ chars (Borrower.email b) \/
    c ∈ chars (Borrower.phone b) \/ c ∈ chars (Borrower.address b) ->
    c <> "<"%char /\ c <> ">"%char.
Proof.
  intros H0. revert b. induction cs as [|c cs IH] using rev_ind; intros b.
  - simpl. rewrite H0. by intros ?%not_elem_of_nil.
  - rewrite run_snoc.
    destruct (exec_borrowers_cases env c (run env cs w0))
      as [->|(d & b' & _ & Hn & _ & _ & Hname & Hem & Hph & Had & ->)];
      [apply IH|].
    rewrite elem_of_app, list_elem_of_singleton. intros [Hin| ->];
      [by apply IH|].
    rewrite Hname, Hem, Hph, Had. split.
    + intros Hempty. by apply (proj1 (sanitize_empty _)) in Hempty.
    + intros ch [H|[H|[H|H]]];
        [by apply sanitize_elem in H
        |by apply sanitize_optional_elem in H..].
Qed.

Lemma toLowerCase_nonempty s :
  s <> EmptyString -> JS.toLowerCase s <> EmptyString.
Proof. intros Hs Hl. by apply toLowerCase_empty in Hl. Qed.

Lemma exec_distinct_emails env c w :
  plain_email c ->
  distinct_emails (borrowers w) ->
  distinct_emails (borrowers (exec env c w)).
Proof.
  intros Hplain Hinv.
  destruct (exec_borrowers_cases env c w)
    as [->|(d & b & -> & _ & Hfree & _ & _ & Hem & _ & _ & ->)]; [done|].
  assert (forall e b', BorrowerData.email d = Some e -> b' ∈ borrowers w ->
                       ~ same_email e b') as Hnot.
  { intros e b' He Hin Hsame. apply Hfree. by exists e, b'. }
  assert (Borrower.email b = EmptyString \/
          exists e, BorrowerData.email d = Some e /\ Borrower.email b = e)
    as Hb.
  { rewrite Hem. unfold sanitize_optional.
    destruct (BorrowerData.email d) as [e|] eqn:He; simpl; [|by left].
    destruct e as [|ch e]; simpl; [by left|].
    right. eexists. split; [done|]. by apply (Hplain (String ch e)). }
  intros i j bi bj Hi Hj Hne Hlow.
  apply lookup_app_Some in Hi as [Hi|[Hleni Hi]];
    apply lookup_app_Some in Hj as [Hj|[Hlenj Hj]].
  - by eapply Hinv.
  - apply list_lookup_singleton_Some in Hj as [Hj0 <-].
    destruct Hb as [Hb|(e & He & Hb)].
    + rewrite Hb in Hlow. simpl in Hlow.
      by apply toLowerCase_empty in Hlow.
    + exfalso. apply (Hnot e bi He); [by eapply list_elem_of_lookup_2|].
      split; [done|]. by rewrite Hlow, Hb.
  - apply list_lookup_singleton_Some in Hi as [Hi0 <-].
    destruct Hb as [Hb|(e & He & Hb)]; [done|].
    exfalso. apply (Hnot e bj He); [by eapply list_elem_of_lookup_2|].
    split; [|by rewrite <- Hlow, Hb].
    intros Hbj. rewrite Hbj in Hlow. simpl in Hlow.
    by apply toLowerCase_empty in Hlow.
  - apply list_lookup_singleton_Some in Hi as [Hi0 _].
    apply list_lookup_singleton_Some in Hj as [Hj0 _]. lia.
Qed.

(** X10. In a directory that started empty, no two borrowers hold the
    same email, letter case aside, as long as every email that was
    registered is one that sanitising leaves as it is. *)
Theorem emails_stay_distinct env cs w0 i j bi bj :
  borrowers w0 = [] ->
  Forall plain_email cs ->
  borrowers (run env cs w0) !! i = Some bi ->
  borrowers (run env cs w0) !! j = Some bj ->
  Borrower.email bi <> EmptyString ->
  JS.toLowerCase (Borrower.email bi) = JS.toLowerCase (Borrower.email bj) ->
  i = j.
Proof.
  intros H0 Hcs.
  enough (distinct_emails (borrowers (run env cs w0))) as Hd
    by (intros; by eapply Hd).
  induction cs as [|c cs IH] using rev_ind.
  - simpl. rewrite H0. intros ? ? ? ? Hi. by rewrite lookup_nil in Hi.
  - apply Forall_app in Hcs as [Hcs Hc]. inversion_clear Hc as [|? ? Hc' _].
    rewrite run_snoc. apply exec_distinct_emails; [done|by apply IH].
Qed.

(** Without that proviso the directory can hold an address twice: the
    stored copy is the sanitised one, the comparison uses the typed one. *)
Example padded_email_registers_twice :
  let padded := BorrowerData.mk (Some "Ada") (Some " ada@x.com") None None in
  exists b1 b2,
    borrowers (run Sample.utc_env
                 [CallRegisterBorrower padded; CallRegisterBorrower padded]
                 Sample.fresh) = [b1; b2] /\
    Borrower.email b1 = Borrower.email b2.
Proof. eexists _, _. split; vm_compute; reflexivity. Qed.

Lemma getBorrower_find borrowerId w :
  fst (getBorrower borrowerId w)
  = Normal (snd <$> list_find (fun b => Borrower.id b = borrowerId)
                              (borrowers w)).
Proof. reflexivity. Qed.

(** X11. After a successful [registerBorrower], [getBorrower] on the
    identifier it assigned finds a borrower; it finds the new borrower
    itself when no earlier borrower carries that identifier; and
    [checkoutBook] for that identifier does not fail with "Borrower not
    found". *)
Theorem registered_borrower_is_known env d w b w' :
  registerBorrower env d w = (Normal (Success b), w') ->
  (exists b', fst (getBorrower (Borrower.id b) w') = Normal (Some b') /\
              Borrower.id b' = Borrower.id b) /\
  ((forall b0, b0 ∈ borrowers w -> Borrower.id b0 <> Borrower.id b) ->
   fst (getBorrower (Borrower.id b) w') = Normal (Some b)) /\
  forall bookId loanDays,
    fst (checkoutBook env bookId (Borrower.id b) loanDays w')
    <> Normal (Failure BorrowerNotFound).
Proof.
  intros H.
  assert (borrowers w' = borrowers w ++ [b]) as Hbs.
  { destruct (registerBorrower_cases env d w)
      as [[e He]|(b0 & _ & _ & _ & _ & _ & _ & _ & He)]; rewrite He in H;
      [done|]. by injection H as <- <-. }
  assert (b ∈ borrowers w') as Hin
    by (rewrite Hbs; apply elem_of_app; right; by apply list_elem_of_singleton).
  destruct (list_find_elem_of (fun b' => Borrower.id b' = Borrower.id b)
              _ b Hin eq_refl) as [[i b'] Hfind].
  split; [|split].
  - exists b'. rewrite getBorrower_find, Hfind.
    split; [done|]. by apply list_find_Some in Hfind as (_ & ? & _).
  - intros Hfresh. rewrite getBorrower_find, Hbs, list_find_app_r.
    + simpl. by rewrite decide_True.
    + apply list_find_None, Forall_forall. intros b1 Hb1. by apply Hfresh.
  - intros bookId loanDays Hfail.
    destruct (list_find (active_for bookId) (transactions w')) as [a|] eqn:Ha.
    + erewrite checkoutBook_already_out in Hfail by done. done.
    + by eapply (checkoutBook_not_failure env bookId _ loanDays w').
Qed.

(** ** A borrower's history *)

Lemma insert_by_recency_perm t l : insert_by_recency t l ≡ₚ t :: l.
Proof.
  induction l as [|x l IH]; simpl; [done|].
  destruct (decide _); [done|]. rewrite IH. apply Permutation_swap.
Qed.

Lemma sort_by_recency_perm l : sort_by_recency l ≡ₚ l.
Proof.
  induction l as [|t l IH]; simpl; [done|].
  by rewrite insert_by_recency_perm, IH.
Qed.

Lemma insert_by_recency_sorted t l :
  Sorted newer_first l -> Sorted newer_first (insert_by_recency t l).
Proof.
  induction 1 as [|x l Hl IH Hhd]; simpl.
  - by repeat constructor.
  - destruct (decide _) as [Hle|Hgt].
    + constructor; [by constructor|]. by constructor.
    + constructor; [done|].
      destruct l as [|y l]; simpl.
      * constructor. unfold newer_first. lia.
      * destruct (decide _).
        -- constructor. unfold newer_first. lia.
        -- constructor. by inversion Hhd.
Qed.

Lemma sort_by_recency_sorted l : Sorted newer_first (sort_by_recency l).
Proof.
  induction l as [|t l IH]; simpl; [constructor|].
  by apply insert_by_recency_sorted.
Qed.

Lemma insert_by_recency_stable k t l :
  filter (fun x => Transaction.createdAt x = k) (insert_by_recency t l)
  = filter (fun x => Transaction.createdAt x = k) (t :: l).
Proof.
  induction l as [|x l IH]; simpl; [done|].
  destruct (decide _) as [Hle|Hgt]; [done|].
  rewrite filter_cons, IH, !filter_cons.
  destruct (decide (Transaction.createdAt x = k)),
           (decide (Transaction.createdAt t = k)); try done; lia.
Qed.

Lemma sort_by_recency_stable k l :
  filter (fun x => Transaction.createdAt x = k) (sort_by_recency l)
  = filter (fun x => Transaction.createdAt x = k) l.
Proof.
  induction l as [|t l IH]; simpl; [done|].
  by rewrite insert_by_recency_stable, !filter_cons, IH.
Qed.

(** X12. [getBorrowerTransactions] changes nothing and returns the
    transactions of the borrower, each as often as the ledger holds it,
    the most recently created first, and those created at the same
    instant in ledger order. *)
Theorem getBorrowerTransactions_spec borrowerId w :
  let mine :=
    filter (fun t => Transaction.borrowerId t = borrowerId) (transactions w) in
  exists r,
    getBorrowerTransactions borrowerId w = (Normal r, w) /\
    r ≡ₚ mine /\
    Sorted newer_first r /\
    forall k, filter (fun t => Transaction.createdAt t = k) r
              = filter (fun t => Transaction.createdAt t = k) mine.
Proof.
  intros mine. eexists. split; [reflexivity|]. split; [|split].
  - apply sort_by_recency_perm.
  - apply sort_by_recency_sorted.
  - intros k. apply sort_by_recency_stable.
Qed.

(** ** Library statistics *)

Lemma count_book_total c book :
  let total c := (BookCounts.availableBooks c + BookCounts.borrowedBooks c
                  + BookCounts.reservedBooks c + BookCounts.lostBooks c)%nat in
  (total c <= total (count_book c book) <= S (total c))%nat.
Proof.
  unfold count_book. repeat destruct (decide _); simpl; lia.
Qed.

Lemma count_books_total books c :
  let total c := (BookCounts.availableBooks c + BookCounts.borrowedBooks c
                  + BookCounts.reservedBooks c + BookCounts.lostBooks c)%nat in
  (total (foldl count_book c books) <= total c + length books)%nat.
Proof.
  revert c. induction books as [|b books IH]; intros c; simpl; [lia|].
  specialize (IH (count_book c b)). simpl in IH.
  pose proof (count_book_total c b) as Hb. simpl in Hb. lia.
Qed.

Lemma ceilDays_positive ms : 0 < ms -> 1 <= JSDate.ceilDays ms.
Proof.
  intros H. pose proof (ceilDays_bounds ms) as Hb.
  assert (0 < JSDate.msPerDay) as Hpos by reflexivity. nia.
Qed.

Lemma days_fine_at_least_rate d : 1 <= d -> (1 # 2 <= inject_Z d * (1 # 2))%Q.
Proof.
  intros H. assert (inject_Z 1 <= inject_Z d)%Q as Hq
    by (by rewrite <- Zle_Qle).
  change (inject_Z 1) with 1%Q in Hq. lra.
Qed.

(** What one default-rate fine lookup returns and leaves behind. *)
Lemma calculateFine_default_step env transactionId w :
  exists q w',
    calculateFine env transactionId None w = (Normal q, w') /\
    (0 <= q)%Q /\
    transactions w' = transactions w /\
    same_data w w' /\
    (clock_reads w <= clock_reads w')%nat /\
    (forall t, find_transaction transactionId (transactions w) = Some t ->
               Transaction.status t = Active ->
               Transaction.dueDate t < clock env (clock_reads w) ->
               (1 # 2 <= q)%Q).
Proof.
  unfold find_transaction, calculateFine. run_monad.
  destruct (list_find _ (transactions w)) as [[i t]|]; simpl.
  2: { eexists _, _. split; [done|]. split; [lra|]. split; [done|].
       split; [apply same_data_refl|]. split; [lia|]. by intros t0. }
  destruct (decide (Transaction.status t <> Active)) as [Hs|Hs]; simpl.
  { eexists _, _. split; [done|]. split; [lra|]. split; [done|].
    split; [apply same_data_refl|]. split; [lia|].
    intros t0 [= <-] Hact. done. }
  destruct (decide (_ <= _)) as [Hle|Hgt]; simpl.
  - eexists _, _. split; [done|]. split; [lra|]. split; [done|].
    split; [by repeat split|]. split; [simpl; lia|].
    intros t0 [= <-] _ Hlt. lia.
  - rewrite mul_int_half. eexists _, _. split; [done|].
    assert (1 # 2 <= inject_Z (JSDate.ceilDays
              (clock env (clock_reads w) - Transaction.dueDate t)) * (1 # 2))%Q
      as Hrate by (apply days_fine_at_least_rate, ceilDays_positive; lia).
    split; [lra|]. split; [done|]. split; [by repeat split|].
    split; [simpl; lia|]. by intros t0 _ _ _.
Qed.

Lemma sum_fines_spec env overdue : forall acc w,
  exists q w',
    sum_fines env overdue acc w = (Normal q, w') /\
    (acc <= q)%Q /\
    same_data w w' /\
    (monotone_clock env ->
     Forall (fun t =>
               find_transaction (Transaction.id t) (transactions w) = Some t /\
               Transaction.status t = Active /\
               Transaction.dueDate t < clock env (clock_reads w)) overdue ->
     (acc + inject_Z (Z.of_nat (length overdue)) * (1 # 2) <= q)%Q).
Proof.
  induction overdue as [|t overdue IH]; intros acc w; simpl.
  - eexists _, _. split; [reflexivity|]. split; [lra|].
    split; [apply same_data_refl|]. intros _ _.
    change (inject_Z (Z.of_nat 0)) with 0%Q. lra.
  - destruct (calculateFine_default_step env (Transaction.id t) w)
      as (f & w1 & Hcalc & Hf & Htx & Hsame & Hreads & Hrate).
    destruct (IH (acc + f)%Q w1) as (q & w2 & Hsum & Hq & Hsame2 & Hbound).
    exists q, w2. unfold bind. rewrite Hcalc, Hsum.
    split; [done|]. split; [lra|]. split.
    { destruct Hsame as (? & ? & ? & ?), Hsame2 as (? & ? & ? & ?).
      repeat split; congruence. }
    intros Hmono Hall. inversion_clear Hall as [|? ? (Hfind & Hs & Hdue) Hrest].
    specialize (Hrate t Hfind Hs Hdue).
    assert (acc + f + inject_Z (Z.of_nat (length overdue)) * (1 # 2) <= q)%Q
      as Hb.
    { apply Hbound; [done|]. eapply Forall_impl; [exact Hrest|].
      intros t' (Hfind' & Hs' & Hdue'). rewrite Htx. split; [done|].
      split; [done|]. pose proof (Hmono _ _ Hreads). lia. }
    rewrite Nat2Z.inj_succ, <- Z.add_1_r, inject_Z_plus.
    change (inject_Z 1) with 1%Q. lra.
Qed.

Lemma overdue_are_active now l :
  (length (List.filter (overdue_at now) l)
   <= length (filter (fun t => Transaction.status t = Active) l))%nat.
Proof.
  induction l as [|t l IH]; simpl; [done|].
  rewrite filter_cons.
  destruct (overdue_at now t) eqn:E.
  - apply overdue_at_spec in E as [Hs _]. rewrite decide_True by done.
    simpl. lia.
  - destruct (decide _); simpl; lia.
Qed.

(** X13. [getLibraryStats] changes neither the arrays nor the store;
    the four status counters add up to at most [totalBooks]; the
    overdue loans are at most the active loans, which are at most all
    transactions; [totalFines] is not negative; and when the clock never
    goes backwards and identifiers are distinct, [totalFines] is at
    least 0.50 per overdue loan. *)
Theorem getLibraryStats_spec env books w :
  exists stats w',
    getLibraryStats env books w = (Normal stats, w') /\
    same_data w w' /\
    LibraryStats.totalBooks stats = length books /\
    (LibraryStats.availableBooks stats + LibraryStats.borrowedBooks stats
     + LibraryStats.reservedBooks stats + LibraryStats.lostBooks stats
     <= LibraryStats.totalBooks stats)%nat /\
    LibraryStats.totalBorrowers stats = length (borrowers w) /\
    LibraryStats.totalTransactions stats = length (transactions w) /\
    (LibraryStats.overdueLoans stats <= LibraryStats.activeLoans stats
     <= LibraryStats.totalTransactions stats)%nat /\
    (0 <= LibraryStats.totalFines stats)%Q /\
    (monotone_clock env -> NoDup (Transaction.id <$> transactions w) ->
     (inject_Z (Z.of_nat (LibraryStats.overdueLoans stats)) * (1 # 2)
      <= LibraryStats.totalFines stats)%Q).
Proof.
  set (now := clock env (clock_reads w)).
  set (w1 := {| borrowers := borrowers w;
                transactions := transactions w;
                stored_borrowers := stored_borrowers w;
                stored_transactions := stored_transactions w;
                clock_reads := S (clock_reads w) |}).
  destruct (sum_fines_spec env (List.filter (overdue_at now) (transactions w))
              0%Q w1) as (q & w2 & Hsum & Hq & Hsame & Hbound).
  eexists _, w2. split.
  { unfold getLibraryStats, getAllBorrowers, getOverdueBooks. run_monad.
    fold now. fold w1. rewrite Hsum. reflexivity. }
  split; [exact Hsame|]. simpl.
  split; [done|]. split.
  { pose proof (count_books_total books (BookCounts.mk 0 0 0 0)) as H.
    simpl in H. lia. }
  split; [done|]. split; [done|]. split.
  { split; [apply overdue_are_active|apply length_filter]. }
  split; [exact Hq|].
  intros Hmono Hnd.
  assert (0 + inject_Z (Z.of_nat (length (List.filter (overdue_at now)
            (transactions w)))) * (1 # 2) <= q)%Q as Hb; [|lra].
  apply Hbound; [done|]. apply Forall_forall. intros t Hin.
  rewrite filter_overdue_at in Hin.
  apply list_elem_of_filter in Hin as [[Hs Hdue] Hin].
  split; [by apply distinct_ids_resolve|]. split; [done|].
  simpl. pose proof (Hmono (clock_reads w) (S (clock_reads w)) ltac:(lia)).
  fold now in H. lia.
Qed.

(** ** Fines over time *)

Lemma ceilDays_monotone a b : a <= b -> JSDate.ceilDays a <= JSDate.ceilDays b.
Proof.
  intros H. rewrite !ceilDays_div.
  assert (0 < JSDate.msPerDay) as Hpos by reflexivity.
  pose proof (Z.div_le_mono (- b) (- a) JSDate.msPerDay Hpos ltac:(lia)). lia.
Qed.

Lemma ceilDays_next_day a :
  JSDate.ceilDays (a + JSDate.msPerDay) = JSDate.ceilDays a + 1.
Proof.
  apply ceilDays_unique. pose proof (ceilDays_bounds a). lia.
Qed.

(** X14. At the default rate of 0.50, for one ledger read at two
    instants, the later instant gives a fine at least as large; and for
    a loan already overdue, exactly 24 hours later the fine is 0.50
    higher. *)
Theorem fine_grows_with_time env transactionId w1 w2 :
  transactions w2 = transactions w1 ->
  clock env (clock_reads w1) <= clock env (clock_reads w2) ->
  exists q1 q2,
    fst (calculateFine env transactionId None w1) = Normal q1 /\
    fst (calculateFine env transactionId None w2) = Normal q2 /\
    (q1 <= q2)%Q /\
    (forall t,
       find_transaction transactionId (transactions w1) = Some t ->
       Transaction.status t = Active ->
       Transaction.dueDate t < clock env (clock_reads w1) ->
       clock env (clock_reads w2)
       = clock env (clock_reads w1) + JSDate.msPerDay ->
       (q2 == q1 + (1 # 2))%Q).
Proof.
  intros Htx Hclock.
  unfold find_transaction, calculateFine. run_monad. rewrite Htx.
  destruct (list_find _ (transactions w1)) as [[i t]|]; simpl.
  2: { exists 0%Q, 0%Q. split; [done|]. split; [done|]. split; [lra|].
       by intros t0. }
  destruct (decide (Transaction.status t <> Active)) as [Hs|Hs]; simpl.
  { exists 0%Q, 0%Q. split; [done|]. split; [done|]. split; [lra|].
    intros t0 [= <-] Hact. done. }
  set (now1 := clock env (clock_reads w1)) in *.
  set (now2 := clock env (clock_reads w2)) in *.
  set (due := Transaction.dueDate t).
  destruct (decide (now1 <= due)) as [H1|H1];
    destruct (decide (now2 <= due)) as [H2|H2]; simpl; try lia;
    rewrite ?mul_int_half.
  - exists 0%Q, 0%Q. split; [done|]. split; [done|]. split; [lra|].
    intros t0 [= <-] _ Hlt. fold due in Hlt. lia.
  - eexists _, _. split; [done|]. split; [done|]. split.
    + assert (inject_Z 1 <= inject_Z (JSDate.ceilDays (now2 - due)))%Q as Hd
        by (rewrite <- Zle_Qle; apply ceilDays_positive; lia).
      change (inject_Z 1) with 1%Q in Hd. lra.
    + intros t0 [= <-] _ Hlt. fold due in Hlt. lia.
  - eexists _, _. split; [done|]. split; [done|].
    assert (inject_Z (JSDate.ceilDays (now1 - due))
            <= inject_Z (JSDate.ceilDays (now2 - due)))%Q as Hd
      by (rewrite <- Zle_Qle; apply ceilDays_monotone; lia).
    split; [lra|].
    intros t0 _ _ _ Hday.
    replace (now2 - due) with ((now1 - due) + JSDate.msPerDay) by lia.
    rewrite ceilDays_next_day, inject_Z_plus.
    change (inject_Z 1) with 1%Q. ring.
Qed.


(** * The further theorems at work on the sample data *)

Lemma sample_clock_increasing : increasing_clock Sample.utc_env.
Proof. intros n m H. simpl. lia. Defined.

Lemma sample_clock_monotone : monotone_clock Sample.utc_env.
Proof. intros n m H. simpl. lia. Defined.

Lemma ledger_only_grows_witness :
  let w' := run Sample.utc_env
              [CallReturnBook "1704067200003" (Some (1 # 2)%Q)]
              Sample.checked_out in
  (length (transactions Sample.checked_out) <= length (transactions w'))%nat /\
  exists t',
    transactions w' !! 0%nat = Some t' /\
    Transaction.id t' = Transaction.id Sample.loan /\
    Transaction.bookId t' = Transaction.bookId Sample.loan /\
    Transaction.borrowerId t' = Transaction.borrowerId Sample.loan /\
    Transaction.checkoutDate t' = Transaction.checkoutDate Sample.loan /\
    Transaction.dueDate t' = Transaction.dueDate Sample.loan /\
    Transaction.createdAt t' = Transaction.createdAt Sample.loan /\
    (Transaction.status t' = Active -> t' = Sample.loan).
Proof.
  apply (ledger_only_grows Sample.utc_env
           [CallReturnBook "1704067200003" (Some (1 # 2)%Q)]
           Sample.checked_out 0 Sample.loan).
  reflexivity.
Defined.

Lemma checkout_then_checkout_fails_witness :
  fst (getActiveTransactions "ITEM1" Sample.checked_out) = Normal [Sample.loan] /\
  forall loanDays',
    checkoutBook Sample.utc_env "ITEM1" "1704067200000" loanDays'
                 Sample.checked_out
    = (Normal (Failure ItemAlreadyCheckedOut), Sample.checked_out).
Proof.
  apply (checkout_then_checkout_fails Sample.utc_env "ITEM1" "1704067200000"
           (Some 14) Sample.registered Sample.loan Sample.checked_out).
  vm_compute. reflexivity.
Defined.

Lemma return_frees_book_witness :
  fst (getActiveTransactions (Transaction.bookId Sample.loan_returned)
         Sample.returned) = Normal [] /\
  forall borrowerId loanDays e,
    fst (getBorrower borrowerId Sample.returned) <> Normal None ->
    fst (checkoutBook Sample.utc_env (Transaction.bookId Sample.loan_returned)
           borrowerId loanDays Sample.returned)
    <> Normal (Failure e).
Proof.
  apply (return_frees_book Sample.utc_env Sample.checked_out "1704067200003"
           (Some (1 # 2)%Q) Sample.loan_returned Sample.returned).
  - exact sample_checked_out_reachable.
  - vm_compute. reflexivity.
Defined.

Lemma dates_in_order_witness :
  Transaction.checkoutDate Sample.loan_returned
  <= Transaction.createdAt Sample.loan_returned /\
  forall r, Transaction.returnDate Sample.loan_returned = Some r ->
            Transaction.checkoutDate Sample.loan_returned <= r.
Proof.
  apply (dates_in_order Sample.utc_env Sample.returned Sample.loan_returned).
  - exact sample_clock_monotone.
  - exact sample_returned_reachable.
  - apply (list_elem_of_lookup_2 _ 0%nat). vm_compute. reflexivity.
Defined.

Lemma increasing_clock_distinct_ids_witness :
  NoDup (Transaction.id <$> transactions Sample.returned) /\
  forall t, t ∈ transactions Sample.returned ->
            find_transaction (Transaction.id t) (transactions Sample.returned)
            = Some t.
Proof.
  apply (increasing_clock_distinct_ids Sample.utc_env Sample.returned).
  - exact sample_clock_increasing.
  - exact sample_returned_reachable.
Defined.

Lemma directory_entries_are_sanitized_witness :
  Borrower.name Shelf.spaced_stored <> EmptyString /\
  forall c,
    c ∈ chars (Borrower.name Shelf.spaced_stored) \/
    c ∈ chars (Borrower.email Shelf.spaced_stored) \/
    c ∈ chars (Borrower.phone Shelf.spaced_stored) \/
    c ∈ chars (Borrower.address Shelf.spaced_stored) ->
    c <> "<"%char /\ c <> ">"%char.
Proof.
  apply (directory_entries_are_sanitized Sample.utc_env
           [CallRegisterBorrower Shelf.spaced] Sample.fresh).
  - reflexivity.
  - apply (list_elem_of_lookup_2 _ 0%nat). vm_compute. reflexivity.
Defined.

Lemma emails_stay_distinct_witness : 0%nat = 0%nat.
Proof.
  apply (emails_stay_distinct Sample.utc_env
           [CallRegisterBorrower Sample.ada; CallRegisterBorrower Sample.ada_again]
           Sample.fresh 0 0 Shelf.ada_stored Shelf.ada_stored).
  - reflexivity.
  - repeat constructor; intros e [= <-]; reflexivity.
  - vm_compute. reflexivity.
  - vm_compute. reflexivity.
  - discriminate.
  - reflexivity.
Defined.

Lemma registered_borrower_is_known_witness :
  (exists b', fst (getBorrower (Borrower.id Shelf.ada_stored) Sample.registered)
              = Normal (Some b') /\
              Borrower.id b' = Borrower.id Shelf.ada_stored) /\
  ((forall b0, b0 ∈ borrowers Sample.fresh ->
               Borrower.id b0 <> Borrower.id Shelf.ada_stored) ->
   fst (getBorrower (Borrower.id Shelf.ada_stored) Sample.registered)
   = Normal (Some Shelf.ada_stored)) /\
  forall bookId loanDays,
    fst (checkoutBook Sample.utc_env bookId (Borrower.id Shelf.ada_stored)
           loanDays Sample.registered)
    <> Normal (Failure BorrowerNotFound).
Proof.
  apply (registered_borrower_is_known Sample.utc_env Sample.ada Sample.fresh
           Shelf.ada_stored Sample.registered).
  vm_compute. reflexivity.
Defined.

Lemma getLibraryStats_spec_witness :
  exists stats w',
    getLibraryStats Sample.late_env Shelf.books Sample.checked_out
    = (Normal stats, w') /\
    LibraryStats.overdueLoans stats = 1%nat /\
    (inject_Z (Z.of_nat (LibraryStats.overdueLoans stats)) * (1 # 2)
     <= LibraryStats.totalFines stats)%Q.
Proof.
  destruct (getLibraryStats_spec Sample.late_env Shelf.books Sample.checked_out)
    as (stats & w' & Hrun & _ & _ & _ & _ & _ & _ & _ & Hfines).
  exists stats, w'. split; [exact Hrun|]. split.
  - vm_compute in Hrun. injection Hrun as <- _. reflexivity.
  - apply Hfines.
    + intros n m H. simpl. lia.
    + vm_compute. repeat constructor; intros H; inversion H.
Defined.

Lemma fine_grows_with_time_witness :
  let w1 := Sample.checked_out in
  let w2 := snd (calculateFine Shelf.daily_env "1704067200003" None w1) in
  exists q1 q2,
    fst (calculateFine Shelf.daily_env "1704067200003" None w1) = Normal q1 /\
    fst (calculateFine Shelf.daily_env "1704067200003" None w2) = Normal q2 /\
    (q1 <= q2)%Q /\
    (forall t,
       find_transaction "1704067200003" (transactions w1) = Some t ->
       Transaction.status t = Active ->
       Transaction.dueDate t < clock Shelf.daily_env (clock_reads w1) ->
       clock Shelf.daily_env (clock_reads w2)
       = clock Shelf.daily_env (clock_reads w1) + JSDate.msPerDay ->
       (q2 == q1 + (1 # 2))%Q).
Proof.
  apply (fine_grows_with_time Shelf.daily_env "1704067200003"
           Sample.checked_out
           (snd (calculateFine Shelf.daily_env "1704067200003" None
                   Sample.checked_out))).
  - reflexivity.
  - vm_compute. discriminate.
Defined.

